(** * go-story: the relational query and batch-assembly engine of package [data]

    A shallow embedding of [internal/data] (the [Repo] queries, the order and
    filter translators, the published-state defaulting, the batch relation
    loader and the derived media URLs) together with the properties the
    specification states about them.

    Conventions of the embedding.
    - Go [int] is [Z]; [string] is [string] (a byte string); a nil pointer is
      [None]; a nil slice and an empty slice are both [[]].
    - [map[int]T] is [gmap Z T]; reading a missing key gives Go's zero value.
    - [*sql.DB] is an oracle from the statement text and its arguments to the
      rows it delivers and the error it reports; every statement sent to it is
      recorded in a log, as is every cache access.
    - [context.Context] deadlines are not modelled: an expired deadline is one
      of the errors the oracle may report. *)

From Stdlib Require Import ZArith String Ascii List Lia Bool.
From Stdlib Require Import Decimal DecimalString DecimalZ DecimalPos.
From stdpp Require Import gmap strings list fin_maps.

Local Set Warnings "-register-all".
Local Open Scope string_scope.
Local Open Scope list_scope.
Local Open Scope Z_scope.

(** ** Strings: [strconv], [strings] and [fmt] *)

Module GoStrings.

(** [strconv.Itoa]. *)
Definition Itoa (z : Z) : string := NilZero.string_of_int (Z.to_int z).

Definition maxInt : Z := 9223372036854775807.
Definition minInt : Z := -9223372036854775808.

Definition in_int (z : Z) : Prop := minInt <= z <= maxInt.

Inductive error : Type :=
  | ErrNoRows
  | ErrOther (msg : string).

Definition error_eqb (a b : error) : bool :=
  match a, b with
  | ErrNoRows, ErrNoRows => true
  | ErrOther x, ErrOther y => String.eqb x y
  | _, _ => false
  end.

Definition ErrSyntax : error := ErrOther "strconv.Atoi: invalid syntax".
Definition ErrRange : error := ErrOther "strconv.Atoi: value out of range".

(** [strconv.Atoi]: an optional sign, then one or more decimal digits.  A
    syntax error gives 0, a value outside [int] gives the nearest bound, both
    with an error. *)
Definition Atoi (s : string) : Z * option error :=
  match s with
  | EmptyString => (0, Some ErrSyntax)
  | String c rest =>
      let neg := Ascii.eqb c "-" in
      let digits := if neg || Ascii.eqb c "+" then rest else s in
      match NilZero.uint_of_string digits with
      | None => (0, Some ErrSyntax)
      | Some d =>
          let n := Z.of_uint d in
          let v := if neg then - n else n in
          if v <? minInt then (minInt, Some ErrRange)
          else if maxInt <? v then (maxInt, Some ErrRange)
          else (v, None)
      end
  end.

(** ASCII upper-casing of one byte. *)
Definition upper_byte (c : ascii) : ascii :=
  let n := nat_of_ascii c in
  if (97 <=? n)%nat && (n <=? 122)%nat then ascii_of_nat (n - 32) else c.

(** [strings.ToUpper] on the UTF-8 bytes of the string.  ASCII letters are
    upper-cased.  The two runes outside ASCII whose upper case is an ASCII
    letter, U+017F (bytes C5 BF, upper case S) and U+0131 (bytes C4 B1, upper
    case I), are mapped as Go maps them.  Every other byte of a multi-byte rune
    is kept: its upper case is again outside ASCII, so it cannot make the
    result equal to an ASCII word. *)
Fixpoint ToUpper (s : string) : string :=
  match s with
  | EmptyString => EmptyString
  | String c rest =>
      match rest with
      | String c' rest' =>
          if Ascii.eqb c "197" && Ascii.eqb c' "191" then
            String "S" (ToUpper rest')
          else if Ascii.eqb c "196" && Ascii.eqb c' "177" then
            String "I" (ToUpper rest')
          else String (upper_byte c) (ToUpper rest)
      | EmptyString => String (upper_byte c) EmptyString
      end
  end.

(** The SQL texts of the package are full of double quotes.  They are
    written here with [~] in place of each double quote and [q] puts the
    quotes back; no statement of the package contains a [~]. *)
Definition dquote : ascii := ascii_of_nat 34.

Fixpoint q (s : string) : string :=
  match s with
  | EmptyString => EmptyString
  | String c rest =>
      String (if Ascii.eqb c "~" then dquote else c) (q rest)
  end.

(** [strings.Join]. *)
Fixpoint Join (elems : list string) (sep : string) : string :=
  match elems with
  | [] => ""
  | [x] => x
  | x :: rest => x +:+ sep +:+ Join rest sep
  end.

End GoStrings.
Export GoStrings.

(** ** Domain models *)

(** The values a [map[string]any] metadata bag holds in this package. *)
Inductive any : Type :=
  | AnyInt (n : Z)
  | AnyInt64 (n : Z)
  | AnyString (s : string).

Record ImageFile := mkImageFile { Width : Z; Height : Z }.

Record Resized := mkResized {
  Original : string;
  W480 : string;
  W800 : string;
  W1200 : string;
  W1600 : string;
  W2400 : string
}.

Record Photo := mkPhoto {
  Photo_ID : string;
  Photo_ImageFile : ImageFile;
  Photo_Resized : Resized;
  Photo_ResizedWebp : Resized;
  Photo_Metadata : option (gmap string any)
}.

Record Section := mkSection {
  Section_ID : string;
  Section_Name : string;
  Section_Slug : string;
  Section_State : string
}.

Record Category := mkCategory {
  Category_ID : string;
  Category_Name : string;
  Category_Slug : string;
  Category_State : string;
  Category_IsMemberOnly : bool;
  Category_Sections : list Section
}.

Record Contact := mkContact { Contact_ID : string; Contact_Name : string }.

Record Tag := mkTag { Tag_ID : string; Tag_Name : string; Tag_Slug : string }.

Record Video := mkVideo {
  Video_ID : string;
  VideoSrc : string;
  Video_HeroImage : option Photo
}.

Record Partner := mkPartner {
  Partner_ID : string;
  Partner_Slug : string;
  Partner_Name : string;
  ShowOnIndex : bool;
  ShowThumb : bool;
  ShowBrief : bool
}.

(** A decoded JSON object ([map[string]any] filled by [json.Unmarshal]) is
    kept as its raw text; [None] is the nil map. *)
Definition JSONObject : Type := option string.

(** [Post] and [Topic] refer to each other ([Post.Topics], [Topic.Posts]) and
    a [Post] holds further posts in its related-article fields. *)
Inductive Post : Type := mkPost {
  Post_ID : string;
  Post_Slug : string;
  Post_Title : string;
  Post_Subtitle : string;
  Post_State : string;
  Post_Style : string;
  Post_PublishedDate : string;
  Post_UpdatedAt : string;
  Post_IsMember : bool;
  Post_IsAdult : bool;
  Post_Sections : list Section;
  Post_SectionsInInputOrder : list Section;
  Post_Categories : list Category;
  Post_CategoriesInInputOrder : list Category;
  Post_Writers : list Contact;
  Post_WritersInInputOrder : list Contact;
  Post_Photographers : list Contact;
  Post_CameraMan : list Contact;
  Post_Designers : list Contact;
  Post_Engineers : list Contact;
  Post_Vocals : list Contact;
  Post_ExtendByline : string;
  Post_Tags : list Tag;
  Post_TagsAlgo : list Tag;
  Post_HeroVideo : option Video;
  Post_HeroImage : option Photo;
  Post_HeroCaption : string;
  Post_Brief : JSONObject;
  Post_TrimmedContent : JSONObject;
  Post_Content : JSONObject;
  Post_Relateds : list Post;
  Post_RelatedsInInputOrder : list Post;
  Post_RelatedsOne : option Post;
  Post_RelatedsTwo : option Post;
  Post_Redirect : string;
  Post_OgTitle : string;
  Post_OgImage : option Photo;
  Post_OgDescription : string;
  Post_HiddenAdvertised : bool;
  Post_IsAdvertised : bool;
  Post_IsFeatured : bool;
  Post_Topics : option Topic;
  Post_Metadata : option (gmap string any)
}
with Topic : Type := mkTopic {
  Topic_ID : string;
  Topic_Name : string;
  Topic_Slug : string;
  Topic_SortOrder : option Z;
  Topic_State : string;
  Topic_Brief : JSONObject;
  Topic_HeroImage : option Photo;
  Topic_HeroURL : string;
  Topic_Leading : string;
  Topic_OgTitle : string;
  Topic_OgDescription : string;
  Topic_OgImage : option Photo;
  Topic_IsFeatured : bool;
  Topic_TitleStyle : string;
  Topic_Type : string;
  Topic_Style : string;
  Topic_Tags : list Tag;
  Topic_SlideshowImages : list Photo;
  Topic_SlideshowImagesInOrder : list Photo;
  Topic_ManualOrderOfSlideshowImages : JSONObject;
  Topic_Posts : list Post;
  Topic_Javascript : string;
  Topic_Dfp : string;
  Topic_MobileDfp : string;
  Topic_CreatedAt : string;
  Topic_UpdatedAt : string;
  Topic_Metadata : option (gmap string any)
}.

Record External := mkExternal {
  External_ID : string;
  External_Slug : string;
  External_Partner : option Partner;
  External_Title : string;
  External_State : string;
  External_PublishedDate : string;
  External_ExtendByline : string;
  External_Thumb : string;
  External_ThumbCaption : string;
  External_Brief : string;
  External_Content : string;
  External_UpdatedAt : string;
  External_Tags : list Tag;
  External_Relateds : list Post;
  External_Metadata : option (gmap string any)
}.

(** The zero values [Post{}], [Topic{}], [Photo{}], [Resized{}]. *)
Definition Resized_zero : Resized := mkResized "" "" "" "" "" "".

Definition Photo_zero : Photo :=
  mkPhoto "" (mkImageFile 0 0) Resized_zero Resized_zero None.

Definition Post_zero : Post :=
  mkPost "" "" "" "" "" "" "" "" false false [] [] [] [] [] [] [] [] [] [] []
         "" [] [] None None "" None None None [] [] None None "" "" None ""
         false false false None None.

Definition Topic_zero : Topic :=
  mkTopic "" "" "" None "" None None "" "" "" "" None false "" "" "" [] [] []
          None [] "" "" "" "" "" None.

(** ** Filters *)

Inductive StringFilter : Type := mkStringFilter {
  SF_Equals : option string;
  SF_In : list string;
  SF_Not : option StringFilter
}.

Record BooleanFilter := mkBooleanFilter { BF_Equals : option bool }.

Record SectionWhereInput := mkSectionWhereInput {
  SectionWhere_Slug : option StringFilter;
  SectionWhere_State : option StringFilter
}.

Record SectionManyRelationFilter := mkSectionMany {
  SectionMany_Some : option SectionWhereInput
}.

Record CategoryWhereInput := mkCategoryWhereInput {
  CategoryWhere_Slug : option StringFilter;
  CategoryWhere_State : option StringFilter;
  CategoryWhere_IsMemberOnly : option BooleanFilter
}.

Record CategoryManyRelationFilter := mkCategoryMany {
  CategoryMany_Some : option CategoryWhereInput
}.

Record PartnerWhereInput := mkPartnerWhereInput {
  PartnerWhere_Slug : option StringFilter
}.

Inductive DateTimeNullableFilter : Type := mkDateTimeNullableFilter {
  DT_Equals : option string;
  DT_Not : option DateTimeNullableFilter
}.

Record IDFilter := mkIDFilter { ID_Equals : option string }.

Record PostTopicsWhereInput := mkPostTopicsWhereInput {
  PostTopics_ID : option IDFilter
}.

Record PostWhereInput := mkPostWhereInput {
  PostWhere_Slug : option StringFilter;
  PostWhere_Sections : option SectionManyRelationFilter;
  PostWhere_Categories : option CategoryManyRelationFilter;
  PostWhere_State : option StringFilter;
  PostWhere_IsAdult : option BooleanFilter;
  PostWhere_IsMember : option BooleanFilter;
  PostWhere_IsFeatured : option BooleanFilter;
  PostWhere_Topics : option PostTopicsWhereInput
}.

Record PostWhereUniqueInput := mkPostWhereUniqueInput {
  PostUnique_ID : option string;
  PostUnique_Slug : option string
}.

Record ExternalWhereInput := mkExternalWhereInput {
  ExternalWhere_Slug : option StringFilter;
  ExternalWhere_State : option StringFilter;
  ExternalWhere_Partner : option PartnerWhereInput;
  ExternalWhere_PublishedDate : option DateTimeNullableFilter
}.

Record TopicWhereInput := mkTopicWhereInput {
  TopicWhere_Slug : option StringFilter;
  TopicWhere_Name : option StringFilter;
  TopicWhere_State : option StringFilter;
  TopicWhere_IsFeatured : option BooleanFilter;
  TopicWhere_Type : option StringFilter;
  TopicWhere_Style : option StringFilter
}.

Record TopicWhereUniqueInput := mkTopicWhereUniqueInput {
  TopicUnique_ID : option string;
  TopicUnique_Name : option string;
  TopicUnique_Slug : option string
}.

Record OrderRule := mkOrderRule { Field : string; Direction : string }.

(** The zero values [PostWhereInput{}] and [ExternalWhereInput{}]. *)
Definition PostWhereInput_zero : PostWhereInput :=
  mkPostWhereInput None None None None None None None None.

Definition ExternalWhereInput_zero : ExternalWhereInput :=
  mkExternalWhereInput None None None None.

(** ** The database handle, the cache and the log *)

(** A statement argument: [*f.Equals], [f.In], a boolean, [pqIntArray(ids)]. *)
Inductive Arg : Type :=
  | ArgString (s : string)
  | ArgStrings (l : list string)
  | ArgBool (b : bool)
  | ArgInts (l : list Z).

(** What a statement delivered: the rows that were scanned without error, in
    order, and the error that stopped it, if any (from [QueryContext], from
    [rows.Scan] or from [rows.Err]). *)
Record QueryResult (T : Type) := mkQueryResult {
  qrows : list T;
  qerr : option error
}.
Arguments mkQueryResult {T}.
Arguments qrows {T}.
Arguments qerr {T}.

(** The scanned columns of one row.  A [sql.NullInt64] and a [sql.NullTime]
    are options; a time is delivered as its text in UTC under
    [timeLayoutMilli]; a JSON column is delivered as [decodeJSONBytes] leaves
    it. *)
Record PostRow := mkPostRow {
  pr_dbID : Z;
  pr_Slug : string;
  pr_Title : string;
  pr_Subtitle : string;
  pr_State : string;
  pr_Style : string;
  pr_IsMember : bool;
  pr_IsAdult : bool;
  pr_publishedAt : option string;
  pr_updatedAt : option string;
  pr_HeroCaption : string;
  pr_ExtendByline : string;
  pr_heroImageID : option Z;
  pr_heroVideoID : option Z;
  pr_brief : JSONObject;
  pr_content : JSONObject;
  pr_Redirect : string;
  pr_OgTitle : string;
  pr_OgDescription : string;
  pr_HiddenAdvertised : bool;
  pr_IsAdvertised : bool;
  pr_IsFeatured : bool;
  pr_topicsID : option Z;
  pr_ogImageID : option Z;
  pr_relatedsOneID : option Z;
  pr_relatedsTwoID : option Z
}.

Record ExternalRow := mkExternalRow {
  er_dbID : Z;
  er_Slug : string;
  er_Title : string;
  er_State : string;
  er_pubAt : option string;
  er_ExtendByline : string;
  er_Thumb : string;
  er_ThumbCaption : string;
  er_Brief : string;
  er_Content : string;
  er_partnerID : option Z;
  er_updAt : option string
}.

Record TopicRow := mkTopicRow {
  tr_dbID : Z;
  tr_Name : string;
  tr_Slug : string;
  tr_sortOrder : option Z;
  tr_State : string;
  tr_brief : JSONObject;
  tr_heroImageID : option Z;
  tr_HeroURL : string;
  tr_Leading : string;
  tr_OgTitle : string;
  tr_OgDescription : string;
  tr_ogImageID : option Z;
  tr_IsFeatured : bool;
  tr_TitleStyle : string;
  tr_Type : string;
  tr_Style : string;
  tr_Javascript : string;
  tr_Dfp : string;
  tr_MobileDfp : string;
  tr_createdAt : option string;
  tr_updatedAt : option string
}.

Record RelatedRow := mkRelatedRow {
  rr_pid : Z;
  rr_dbID : Z;
  rr_Slug : string;
  rr_Title : string;
  rr_heroID : option Z
}.

Record PostByIDRow := mkPostByIDRow {
  pb_dbID : Z;
  pb_Slug : string;
  pb_Title : string;
  pb_hero : option Z
}.

Record VideoRow := mkVideoRow {
  vr_dbID : Z;
  vr_VideoSrc : string;
  vr_hero : option Z
}.

Record ImageRow := mkImageRow {
  im_id : Z;
  im_fileID : string;
  im_ext : string;
  im_width : option Z;
  im_height : option Z
}.

Record SlideshowRow := mkSlideshowRow {
  sl_tid : Z;
  sl_image : ImageRow;
  sl_name : string;
  sl_topicKeywords : string
}.

Record CategoryRow := mkCategoryRow {
  cr_pid : Z;
  cr_ID : string;
  cr_Name : string;
  cr_Slug : string;
  cr_State : string;
  cr_IsMemberOnly : bool
}.

Record PartnerRow := mkPartnerRow {
  pa_dbID : Z;
  pa_Slug : string;
  pa_Name : string;
  pa_ShowOnIndex : bool;
  pa_ShowThumb : bool;
  pa_ShowBrief : bool
}.

(** The destinations a statement's rows are scanned into. *)
Inductive Shape : Type :=
  | SPost | SExternal | STopic | SCount
  | SSection | SCategory | SContact | STag
  | SRelated | SPostByID | SVideo | STopicRef
  | SImage | SPartner | SSlideshow.

Definition row (S : Shape) : Type :=
  match S with
  | SPost => PostRow
  | SExternal => ExternalRow
  | STopic => TopicRow
  | SCount => Z
  | SSection => (Z * Section)%type
  | SCategory => CategoryRow
  | SContact => (Z * Contact)%type
  | STag => (Z * Tag)%type
  | SRelated => RelatedRow
  | SPostByID => PostByIDRow
  | SVideo => VideoRow
  | STopicRef => (Z * string)%type
  | SImage => ImageRow
  | SPartner => PartnerRow
  | SSlideshow => SlideshowRow
  end.

(** [*sql.DB]: read-only, so an oracle. *)
Definition DB : Type := forall S : Shape, string -> list Arg -> QueryResult (row S).

(** The values the package stores in the cache, by destination type. *)
Inductive CType : Type :=
  | CPosts | CPost | CExternals | CTopics | CTopic | CCount.

Definition cval (T : CType) : Type :=
  match T with
  | CPosts => list Post
  | CPost => option Post
  | CExternals => list External
  | CTopics => list Topic
  | CTopic => option Topic
  | CCount => Z
  end.

(** What [GenerateCacheKey] is given as its second argument. *)
Inductive KeyParams : Type :=
  | KeyPosts (where_ : PostWhereInput) (orders : list OrderRule) (take skip : Z)
  | KeyPostUnique (where_ : PostWhereUniqueInput)
  | KeyExternals (where_ : ExternalWhereInput) (orders : list OrderRule)
                 (take skip : Z)
  | KeyTopics (where_ : option TopicWhereInput) (orders : list OrderRule)
              (take skip : Z)
  | KeyTopicsCount (where_ : option TopicWhereInput)
  | KeyTopicUnique (where_ : TopicWhereUniqueInput).

(** [*Cache] and [GenerateCacheKey] are declared in a file of the package that
    is not part of this development; they are taken as they are called:
    [Enabled() bool], [Get(ctx, key, dest) (found bool, err error)] with the
    value left in [dest], [Set(ctx, key, value) error], and
    [GenerateCacheKey(op, params) string]. *)
Record Cache := mkCache {
  Enabled : bool;
  Get : forall T : CType, string -> bool * cval T * option error;
  Set_ : forall T : CType, string -> cval T -> option error;
  GenerateCacheKey : string -> KeyParams -> string
}.

(** [Repo]. *)
Record Repo := mkRepo {
  db : DB;
  staticsHost : string;
  cache : option Cache
}.

(** What an operation did to the outside, in order. *)
Inductive Event : Type :=
  | EvQuery (query : string) (args : list Arg)
  | EvCacheGet (key : string)
  | EvCacheSet (key : string).

(** Computations that log their accesses. *)
Definition M (A : Type) : Type := (A * list Event)%type.

#[global] Instance M_ret : MRet M := fun A a => (a, []).

#[global] Instance M_bind : MBind M := fun A B f m =>
  let (b, l2) := f (fst m) in (b, snd m ++ l2).

Definition result {A} (m : M A) : A := fst m.
Definition log {A} (m : M A) : list Event := snd m.

(** [r.db.QueryContext(ctx, query, args...)] followed by the scan loop. *)
Definition QueryContext (d : DB) (S : Shape) (query : string) (args : list Arg)
  : M (QueryResult (row S)) :=
  (d S query args, [EvQuery query args]).

(** [r.db.QueryRowContext(ctx, query, args...).Scan(...)]: the first row, or
    the error; [sql.ErrNoRows] when there is no row. *)
Definition QueryRowContext (d : DB) (S : Shape) (query : string)
  (args : list Arg) : M (row S + error) :=
  let r := d S query args in
  (match qerr r with
   | Some e => inr e
   | None =>
       match qrows r with
       | [] => inr ErrNoRows
       | x :: _ => inl x
       end
   end, [EvQuery query args]).

(** [r.cache != nil && r.cache.Enabled()]. *)
Definition cacheOn (r : Repo) : option Cache :=
  match cache r with
  | Some c => if Enabled c then Some c else None
  | None => None
  end.

Definition cacheGet (c : Cache) (T : CType) (key : string)
  : M (bool * cval T * option error) :=
  (Get c T key, [EvCacheGet key]).

Definition cacheSet (c : Cache) (T : CType) (key : string) (v : cval T)
  : M (option error) :=
  (Set_ c T key v, [EvCacheSet key]).

(** ** Internal helpers *)

Definition ptrString (s : string) : option string := Some s.

(** [ensurePostPublished].  The Go function writes the default into the
    caller's struct; the embedding returns the struct it leaves behind. *)
Definition ensurePostPublished (where_ : option PostWhereInput) : PostWhereInput :=
  let w := match where_ with
           | None => PostWhereInput_zero
           | Some w => w
           end in
  match PostWhere_State w with
  | None =>
      mkPostWhereInput (PostWhere_Slug w) (PostWhere_Sections w)
        (PostWhere_Categories w)
        (Some (mkStringFilter (ptrString "published") [] None))
        (PostWhere_IsAdult w) (PostWhere_IsMember w) (PostWhere_IsFeatured w)
        (PostWhere_Topics w)
  | Some _ => w
  end.

(** [ensureExternalPublished]. *)
Definition ensureExternalPublished (where_ : option ExternalWhereInput)
  : ExternalWhereInput :=
  let w := match where_ with
           | None => ExternalWhereInput_zero
           | Some w => w
           end in
  match ExternalWhere_State w with
  | None =>
      mkExternalWhereInput (ExternalWhere_Slug w)
        (Some (mkStringFilter (ptrString "published") [] None))
        (ExternalWhere_Partner w) (ExternalWhere_PublishedDate w)
  | Some _ => w
  end.

(** [nullableInt]. *)
Definition nullableInt (v : option Z) : Z :=
  match v with
  | Some n => n
  | None => 0
  end.

(** [getMetaInt]. *)
Definition getMetaInt (m : option (gmap string any)) (key : string) : Z :=
  match m with
  | None => 0
  | Some m =>
      match m !! key with
      | Some (AnyInt n) => n
      | Some (AnyInt64 n) => n
      | _ => 0
      end
  end.

(** [pqIntArray]. *)
Definition pqIntArray (ids : list Z) : Arg := ArgInts ids.

(** [buildOrderClause]. *)
Definition buildOrderClause (rule : OrderRule) : string :=
  let dir := ToUpper (Direction rule) in
  let dir := if negb (String.eqb dir "ASC") && negb (String.eqb dir "DESC")
             then "DESC" else dir in
  if String.eqb (Field rule) "publishedDate" then q "~publishedDate~ " +:+ dir
  else if String.eqb (Field rule) "updatedAt" then q "~updatedAt~ " +:+ dir
  else if String.eqb (Field rule) "title" then q "~title~ " +:+ dir
  else q "~publishedDate~ DESC".

(** [buildExternalOrder]. *)
Definition buildExternalOrder (rule : OrderRule) : string :=
  let dir := ToUpper (Direction rule) in
  let dir := if negb (String.eqb dir "ASC") && negb (String.eqb dir "DESC")
             then "DESC" else dir in
  if String.eqb (Field rule) "publishedDate" then q "e.~publishedDate~ " +:+ dir
  else if String.eqb (Field rule) "updatedAt" then q "e.~updatedAt~ " +:+ dir
  else q "e.~publishedDate~ DESC".

(** [buildTopicOrderClause]. *)
Definition buildTopicOrderClause (rule : OrderRule) : string :=
  let dir := ToUpper (Direction rule) in
  let dir := if negb (String.eqb dir "ASC") && negb (String.eqb dir "DESC")
             then "ASC" else dir in
  if String.eqb (Field rule) "sortOrder" then
    q "~sortOrder~ " +:+ dir +:+ " NULLS LAST"
  else if String.eqb (Field rule) "createdAt" then q "~createdAt~ " +:+ dir
  else if String.eqb (Field rule) "updatedAt" then q "~updatedAt~ " +:+ dir
  else if String.eqb (Field rule) "name" then "name " +:+ dir
  else if String.eqb (Field rule) "slug" then "slug " +:+ dir
  else q "~sortOrder~ ASC NULLS LAST, ~createdAt~ DESC".

(** [Repo.buildResizedURLs]; [makeURL] is its local closure. *)
Definition makeURL (host fileID size extension : string) : string :=
  if String.eqb size "" then host +:+ "/" +:+ fileID +:+ "." +:+ extension
  else host +:+ "/" +:+ fileID +:+ "-" +:+ size +:+ "." +:+ extension.

Definition buildResizedURLs (r : Repo) (fileID ext : string) : Resized :=
  if String.eqb fileID "" then Resized_zero
  else
    let ext := if String.eqb ext "" then "jpg" else ext in
    let host := staticsHost r in
    mkResized (makeURL host fileID "" ext)
              (makeURL host fileID "w480" ext)
              (makeURL host fileID "w800" ext)
              (makeURL host fileID "w1200" ext)
              (makeURL host fileID "w1600" ext)
              (makeURL host fileID "w2400" ext).

(** ** Building the statements *)

(** The local variables a query function builds its statement in:
    [sb], [conds], [args] and [argIdx]. *)
Record Builder := mkBuilder {
  sb : string;
  conds : list string;
  args : list Arg;
  argIdx : Z
}.

(** [sb.WriteString(s)]. *)
Definition writeString (b : Builder) (s : string) : Builder :=
  mkBuilder (sb b +:+ s) (conds b) (args b) (argIdx b).

(** [conds = append(conds, c)]. *)
Definition appendCond (b : Builder) (c : string) : Builder :=
  mkBuilder (sb b) (conds b ++ [c]) (args b) (argIdx b).

(** [args = append(args, a); argIdx++]. *)
Definition appendArg (b : Builder) (a : Arg) : Builder :=
  mkBuilder (sb b) (conds b) (args b ++ [a]) (argIdx b + 1).

(** [f != nil && f.Equals != nil], giving [*f.Equals]. *)
Definition sfEquals (f : option StringFilter) : option string :=
  match f with
  | Some f => SF_Equals f
  | None => None
  end.

Definition bfEquals (f : option BooleanFilter) : option bool :=
  match f with
  | Some f => BF_Equals f
  | None => None
  end.

(** The closure [buildStringFilter] of [QueryPosts] and [QueryTopics]:
    [equals] and [in]. *)
Definition buildStringFilterIn (field : string) (f : option StringFilter)
  (b : Builder) : Builder :=
  match f with
  | None => b
  | Some f =>
      let b := match SF_Equals f with
               | Some v =>
                   appendArg (appendCond b (field +:+ " = $" +:+ Itoa (argIdx b)))
                             (ArgString v)
               | None => b
               end in
      if (0 <? length (SF_In f))%nat then
        appendArg
          (appendCond b (field +:+ " = ANY($" +:+ Itoa (argIdx b) +:+ ")"))
          (ArgStrings (SF_In f))
      else b
  end.

(** The closure [buildStringFilter] of [QueryPostsCount], [QueryExternals],
    [QueryExternalsCount] and [QueryTopicsCount]: [equals] only. *)
Definition buildStringFilter (field : string) (f : option StringFilter)
  (b : Builder) : Builder :=
  match f with
  | None => b
  | Some f =>
      match SF_Equals f with
      | Some v =>
          appendArg (appendCond b (field +:+ " = $" +:+ Itoa (argIdx b)))
                    (ArgString v)
      | None => b
      end
  end.

(** [cond = $argIdx] for a boolean filter that has [equals]. *)
Definition buildBooleanFilter (column : string) (f : option BooleanFilter)
  (b : Builder) : Builder :=
  match bfEquals f with
  | Some v =>
      appendArg (appendCond b (column +:+ " = $" +:+ Itoa (argIdx b)))
                (ArgBool v)
  | None => b
  end.

(** One [sub += fmt.Sprintf(" AND col = $%d", argIdx)] step of an [EXISTS]
    subquery: the text so far and the builder. *)
Definition subAnd (column : string) (v : option Arg) (st : string * Builder)
  : string * Builder :=
  match v with
  | Some a =>
      (fst st +:+ " AND " +:+ column +:+ " = $" +:+ Itoa (argIdx (snd st)),
       appendArg (snd st) a)
  | None => st
  end.

Definition sectionsSub : string := Eval cbv in
  q "EXISTS (SELECT 1 FROM ~_Post_sections~ ps JOIN ~Section~ s ON s.id = ps.~B~ WHERE ps.~A~ = p.id".

Definition categoriesSub : string := Eval cbv in
  q "EXISTS (SELECT 1 FROM ~_Category_posts~ cp JOIN ~Category~ c ON c.id = cp.~A~ WHERE cp.~B~ = p.id".

(** [if where.Sections != nil && where.Sections.Some != nil { ... }]. *)
Definition buildSectionsFilter (f : option SectionManyRelationFilter)
  (b : Builder) : Builder :=
  match f with
  | Some (mkSectionMany (Some some)) =>
      let st := (sectionsSub, b) in
      let st := subAnd "s.slug"
                  (ArgString <$> sfEquals (SectionWhere_Slug some)) st in
      let st := subAnd "s.state"
                  (ArgString <$> sfEquals (SectionWhere_State some)) st in
      appendCond (snd st) (fst st +:+ ")")
  | _ => b
  end.

(** [if where.Categories != nil && where.Categories.Some != nil { ... }]. *)
Definition buildCategoriesFilter (f : option CategoryManyRelationFilter)
  (b : Builder) : Builder :=
  match f with
  | Some (mkCategoryMany (Some some)) =>
      let st := (categoriesSub, b) in
      let st := subAnd "c.slug"
                  (ArgString <$> sfEquals (CategoryWhere_Slug some)) st in
      let st := subAnd "c.state"
                  (ArgString <$> sfEquals (CategoryWhere_State some)) st in
      let st := subAnd (q "c.~isMemberOnly~")
                  (ArgBool <$> bfEquals (CategoryWhere_IsMemberOnly some)) st in
      appendCond (snd st) (fst st +:+ ")")
  | _ => b
  end.

(** [if len(conds) > 0 { sb.WriteString(" WHERE "); ... }]. *)
Definition writeWhere (b : Builder) : Builder :=
  if (0 <? length (conds b))%nat then
    writeString (writeString b " WHERE ") (Join (conds b) " AND ")
  else b.

(** [if take > 0 { LIMIT }] and [if skip > 0 { OFFSET }]. *)
Definition writeLimitOffset (take skip : Z) (b : Builder) : Builder :=
  let b := if 0 <? take then writeString b (" LIMIT " +:+ Itoa take) else b in
  if 0 <? skip then writeString b (" OFFSET " +:+ Itoa skip) else b.

Definition newBuilder (select : string) : Builder := mkBuilder select [] [] 1.

(** *** Post *)

Definition postColumns : string := Eval cbv in
  q "SELECT id, slug, title, subtitle, state, style, ~isMember~, ~isAdult~, ~publishedDate~, ~updatedAt~, COALESCE(~heroCaption~,'') as heroCaption, COALESCE(~extend_byline~,'') as extend_byline, ~heroImage~, ~heroVideo~, brief, content, COALESCE(redirect,'') as redirect, COALESCE(og_title,'') as og_title, COALESCE(og_description,'') as og_description, ~hiddenAdvertised~, ~isAdvertised~, ~isFeatured~, topics, ~og_image~, ~relatedsOne~, ~relatedsTwo~ FROM ~Post~ p".

(** The filter part of [QueryPosts]; [where] is what [ensurePostPublished]
    returned, so it is never nil here. *)
Definition QueryPosts_conds (where_ : PostWhereInput) (b : Builder) : Builder :=
  let b := buildStringFilterIn "slug" (PostWhere_Slug where_) b in
  let b := buildStringFilterIn "state" (PostWhere_State where_) b in
  let b := buildBooleanFilter (q "~isAdult~") (PostWhere_IsAdult where_) b in
  let b := buildBooleanFilter (q "~isMember~") (PostWhere_IsMember where_) b in
  let b := buildSectionsFilter (PostWhere_Sections where_) b in
  buildCategoriesFilter (PostWhere_Categories where_) b.

(** The statement [QueryPosts] sends. *)
Definition QueryPosts_statement (where_ : PostWhereInput)
  (orders : list OrderRule) (take skip : Z) : Builder :=
  let b := newBuilder postColumns in
  let b := QueryPosts_conds where_ b in
  let b := writeWhere b in
  let b := match orders with
           | rule :: _ =>
               writeString (writeString b " ORDER BY ") (buildOrderClause rule)
           | [] => writeString b (q " ORDER BY ~publishedDate~ DESC")
           end in
  writeLimitOffset take skip b.

Definition QueryPostsCount_conds (where_ : PostWhereInput) (b : Builder)
  : Builder :=
  let b := buildStringFilter "slug" (PostWhere_Slug where_) b in
  let b := buildStringFilter "state" (PostWhere_State where_) b in
  let b := buildBooleanFilter (q "~isAdult~") (PostWhere_IsAdult where_) b in
  let b := buildBooleanFilter (q "~isMember~") (PostWhere_IsMember where_) b in
  let b := buildSectionsFilter (PostWhere_Sections where_) b in
  buildCategoriesFilter (PostWhere_Categories where_) b.

(** The statement [QueryPostsCount] sends. *)
Definition QueryPostsCount_statement (where_ : PostWhereInput) : Builder :=
  let b := newBuilder (q "SELECT COUNT(*) FROM ~Post~ p") in
  writeWhere (QueryPostsCount_conds where_ b).

(** *** External *)

Definition externalColumns : string := Eval cbv in
  q "SELECT e.id, e.slug, e.title, e.state, e.~publishedDate~, e.~extend_byline~, e.thumb, e.~thumbCaption~, e.brief, e.content, e.partner, e.~updatedAt~ FROM ~External~ e".

Definition publishedNotNull : string := Eval cbv in
  q "e.~publishedDate~ IS NOT NULL".

(** [where.Partner != nil && where.Partner.Slug != nil &&
    where.Partner.Slug.Equals != nil], giving the slug. *)
Definition partnerSlugEquals (f : option PartnerWhereInput) : option string :=
  match f with
  | Some f => sfEquals (PartnerWhere_Slug f)
  | None => None
  end.

(** The partner filter of both External queries: a join and a predicate. *)
Definition buildPartnerFilter (f : option PartnerWhereInput) (b : Builder)
  : Builder :=
  match partnerSlugEquals f with
  | Some v =>
      let b := writeString b (q " JOIN ~Partner~ p ON p.id = e.partner") in
      appendArg (appendCond b ("p.slug = $" +:+ Itoa (argIdx b))) (ArgString v)
  | None => b
  end.

(** [if where.PublishedDate != nil { ... }] of [QueryExternals]. *)
Definition buildPublishedDateFilter (f : option DateTimeNullableFilter)
  (b : Builder) : Builder :=
  match f with
  | None => b
  | Some f =>
      let b := match DT_Equals f with
               | Some v =>
                   appendArg
                     (appendCond b
                        (q "e.~publishedDate~ = $" +:+ Itoa (argIdx b)))
                     (ArgString v)
               | None => b
               end in
      match DT_Not f with
      | None => b
      | Some n =>
          match DT_Equals n with
          | None => appendCond b publishedNotNull
          | Some v =>
              appendArg
                (appendCond b (q "e.~publishedDate~ <> $" +:+ Itoa (argIdx b)))
                (ArgString v)
          end
      end
  end.

(** [orderUsesPublished] of [QueryExternals]. *)
Definition orderUsesPublished (orders : list OrderRule) : bool :=
  match orders with
  | [] => true
  | rule :: _ => String.eqb (Field rule) "publishedDate"
  end.

Definition QueryExternals_conds (where_ : ExternalWhereInput)
  (orders : list OrderRule) (b : Builder) : Builder :=
  let b := if orderUsesPublished orders then appendCond b publishedNotNull
           else b in
  let b := buildStringFilter "e.slug" (ExternalWhere_Slug where_) b in
  let b := buildStringFilter "e.state" (ExternalWhere_State where_) b in
  let b := buildPublishedDateFilter (ExternalWhere_PublishedDate where_) b in
  buildPartnerFilter (ExternalWhere_Partner where_) b.

(** The statement [QueryExternals] sends. *)
Definition QueryExternals_statement (where_ : ExternalWhereInput)
  (orders : list OrderRule) (take skip : Z) : Builder :=
  let b := newBuilder externalColumns in
  let b := QueryExternals_conds where_ orders b in
  let b := writeWhere b in
  let b := match orders with
           | rule :: _ =>
               writeString (writeString b " ORDER BY ") (buildExternalOrder rule)
           | [] => writeString b (q " ORDER BY e.~publishedDate~ DESC")
           end in
  writeLimitOffset take skip b.

Definition QueryExternalsCount_conds (where_ : ExternalWhereInput)
  (b : Builder) : Builder :=
  let b := buildStringFilter "e.slug" (ExternalWhere_Slug where_) b in
  let b := buildStringFilter "e.state" (ExternalWhere_State where_) b in
  buildPartnerFilter (ExternalWhere_Partner where_) b.

(** The statement [QueryExternalsCount] sends. *)
Definition QueryExternalsCount_statement (where_ : ExternalWhereInput)
  : Builder :=
  let b := newBuilder (q "SELECT COUNT(*) FROM ~External~ e") in
  writeWhere (QueryExternalsCount_conds where_ b).

(** *** Topic *)

Definition topicColumns : string := Eval cbv in
  q "SELECT id, name, slug, ~sortOrder~, state, brief, ~heroImage~, ~heroUrl~, ~leading~, ~og_title~, ~og_description~, ~og_image~, ~isFeatured~, ~title_style~, type, style, javascript, dfp, ~mobile_dfp~, ~createdAt~, ~updatedAt~ FROM ~Topic~ t".

(** The filter part of [QueryTopics]; [where] may be nil. *)
Definition QueryTopics_conds (where_ : option TopicWhereInput) (b : Builder)
  : Builder :=
  match where_ with
  | None => b
  | Some w =>
      let b := buildStringFilterIn "slug" (TopicWhere_Slug w) b in
      let b := buildStringFilterIn "name" (TopicWhere_Name w) b in
      let b := buildStringFilterIn "state" (TopicWhere_State w) b in
      let b := buildStringFilterIn "type" (TopicWhere_Type w) b in
      let b := buildStringFilterIn "style" (TopicWhere_Style w) b in
      buildBooleanFilter (q "~isFeatured~") (TopicWhere_IsFeatured w) b
  end.

(** The statement [QueryTopics] sends. *)
Definition QueryTopics_statement (where_ : option TopicWhereInput)
  (orders : list OrderRule) (take skip : Z) : Builder :=
  let b := newBuilder topicColumns in
  let b := QueryTopics_conds where_ b in
  let b := writeWhere b in
  let b := match orders with
           | rule :: _ =>
               writeString (writeString b " ORDER BY ")
                           (buildTopicOrderClause rule)
           | [] =>
               writeString b
                 (q " ORDER BY ~sortOrder~ ASC NULLS LAST, ~createdAt~ DESC")
           end in
  writeLimitOffset take skip b.

Definition QueryTopicsCount_conds (where_ : option TopicWhereInput)
  (b : Builder) : Builder :=
  match where_ with
  | None => b
  | Some w =>
      let b := buildStringFilter "slug" (TopicWhere_Slug w) b in
      let b := buildStringFilter "name" (TopicWhere_Name w) b in
      let b := buildStringFilter "state" (TopicWhere_State w) b in
      let b := buildStringFilter "type" (TopicWhere_Type w) b in
      let b := buildStringFilter "style" (TopicWhere_Style w) b in
      buildBooleanFilter (q "~isFeatured~") (TopicWhere_IsFeatured w) b
  end.

(** The statement [QueryTopicsCount] sends. *)
Definition QueryTopicsCount_statement (where_ : option TopicWhereInput)
  : Builder :=
  let b := newBuilder (q "SELECT COUNT(*) FROM ~Topic~ t") in
  writeWhere (QueryTopicsCount_conds where_ b).

(** ** The batch relation loader *)

(** [result[k] = append(result[k], v)]. *)
Definition appendAt {V : Type} (m : gmap Z (list V)) (k : Z) (v : V)
  : gmap Z (list V) :=
  <[k := default [] (m !! k) ++ [v]]> m.

(** Reading [m[k]] of a [map[int][]V]: the nil slice when the key is absent. *)
Definition at_ {V : Type} (m : gmap Z (list V)) (k : Z) : list V :=
  default [] (m !! k).

Definition fetchSections_query : string := Eval cbv in
  q "SELECT ps.~A~ as post_id, s.id, s.name, s.slug, s.state FROM ~_Post_sections~ ps JOIN ~Section~ s ON s.id = ps.~B~ WHERE ps.~A~ = ANY($1)".

(** [Repo.fetchSections]. *)
Definition fetchSections (r : Repo) (postIDs : list Z)
  : M (gmap Z (list Section) * option error) :=
  if (length postIDs =? 0)%nat then mret (∅, None)
  else
    rows ← QueryContext (db r) SSection fetchSections_query [pqIntArray postIDs];
    mret (foldl (fun m (x : Z * Section) => appendAt m (fst x) (snd x)) ∅
                (qrows rows),
          qerr rows).

Definition fetchCategories_query : string := Eval cbv in
  q "SELECT cp.~B~ as post_id, c.id, c.name, c.slug, c.state, c.~isMemberOnly~ FROM ~_Category_posts~ cp JOIN ~Category~ c ON c.id = cp.~A~ WHERE cp.~B~ = ANY($1)".

(** [Repo.fetchCategories]. *)
Definition fetchCategories (r : Repo) (postIDs : list Z)
  : M (gmap Z (list Category) * option error) :=
  if (length postIDs =? 0)%nat then mret (∅, None)
  else
    rows ← QueryContext (db r) SCategory fetchCategories_query
             [pqIntArray postIDs];
    mret (foldl (fun m (x : CategoryRow) =>
                   appendAt m (cr_pid x)
                     (mkCategory (cr_ID x) (cr_Name x) (cr_Slug x) (cr_State x)
                                 (cr_IsMemberOnly x) []))
                ∅ (qrows rows),
          qerr rows).

Definition fetchContacts_query (table : string) : string :=
  q "SELECT t.~B~ as post_id, c.id, c.name FROM ~" +:+ table +:+
  q "~ t JOIN ~Contact~ c ON c.id = t.~A~ WHERE t.~B~ = ANY($1)".

(** [Repo.fetchContacts]. *)
Definition fetchContacts (r : Repo) (table : string) (postIDs : list Z)
  : M (gmap Z (list Contact) * option error) :=
  if (length postIDs =? 0)%nat then mret (∅, None)
  else
    rows ← QueryContext (db r) SContact (fetchContacts_query table)
             [pqIntArray postIDs];
    mret (foldl (fun m (x : Z * Contact) => appendAt m (fst x) (snd x)) ∅
                (qrows rows),
          qerr rows).

Definition fetchTags_query (table : string) : string :=
  q "SELECT t.~A~ as post_id, tg.id, tg.name, tg.slug FROM ~" +:+ table +:+
  q "~ t JOIN ~Tag~ tg ON tg.id = t.~B~ WHERE t.~A~ = ANY($1)".

(** [Repo.fetchTags]. *)
Definition fetchTags (r : Repo) (table : string) (postIDs : list Z)
  : M (gmap Z (list Tag) * option error) :=
  if (length postIDs =? 0)%nat then mret (∅, None)
  else
    rows ← QueryContext (db r) STag (fetchTags_query table) [pqIntArray postIDs];
    mret (foldl (fun m (x : Z * Tag) => appendAt m (fst x) (snd x)) ∅
                (qrows rows),
          qerr rows).

(** A [Post] of which only the identifier, the slug, the title and the
    metadata bag are set: what the related-article queries fill in. *)
Definition narrowPost (dbID : Z) (slug title : string) (hero : option Z) : Post :=
  mkPost (Itoa dbID) slug title "" "" "" "" "" false false [] [] [] [] [] [] []
         [] [] [] [] "" [] [] None None "" None None None [] [] None None ""
         "" None "" false false false None
         (match hero with
          | Some h => Some {[ "heroImageID" := AnyInt h ]}
          | None => None
          end).

(** [imageIDs = append(imageIDs, int(hero.Int64))] when the column is set. *)
Definition appendValid (ids : list Z) (hero : option Z) : list Z :=
  match hero with
  | Some h => ids ++ [h]
  | None => ids
  end.

(** The text between the back quotes in [fetchRelatedPosts], line breaks and
    tabs included. *)
Definition fetchRelatedPosts_query : string := Eval cbv in
  q "
		SELECT r.~A~ as post_id, p.id, p.slug, p.title, p.~heroImage~
		FROM ~_Post_relateds~ r
		JOIN ~Post~ p ON p.id = r.~B~
		WHERE r.~A~ = ANY($1)
		UNION
		SELECT r.~B~ as post_id, p.id, p.slug, p.title, p.~heroImage~
		FROM ~_Post_relateds~ r
		JOIN ~Post~ p ON p.id = r.~A~
		WHERE r.~B~ = ANY($1)
	".

(** [Repo.fetchRelatedPosts]. *)
Definition fetchRelatedPosts (r : Repo) (postIDs : list Z)
  : M (gmap Z (list Post) * list Z * option error) :=
  if (length postIDs =? 0)%nat then mret (∅, [], None)
  else
    rows ← QueryContext (db r) SRelated fetchRelatedPosts_query
             [pqIntArray postIDs];
    let st :=
      foldl (fun (st : gmap Z (list Post) * list Z) (x : RelatedRow) =>
               (appendAt (fst st) (rr_pid x)
                  (narrowPost (rr_dbID x) (rr_Slug x) (rr_Title x) (rr_heroID x)),
                appendValid (snd st) (rr_heroID x)))
            (∅, []) (qrows rows) in
    mret (fst st, snd st, qerr rows).

Definition fetchPostsByIDs_query : string := Eval cbv in
  q "SELECT id, slug, title, ~heroImage~ FROM ~Post~ WHERE id = ANY($1)".

(** [Repo.fetchPostsByIDs]. *)
Definition fetchPostsByIDs (r : Repo) (ids : list Z)
  : M (list Post * list Z * option error) :=
  if (length ids =? 0)%nat then mret ([], [], None)
  else
    rows ← QueryContext (db r) SPostByID fetchPostsByIDs_query [pqIntArray ids];
    let st :=
      foldl (fun (st : list Post * list Z) (x : PostByIDRow) =>
               (fst st ++
                  [narrowPost (pb_dbID x) (pb_Slug x) (pb_Title x) (pb_hero x)],
                appendValid (snd st) (pb_hero x)))
            ([], []) (qrows rows) in
    mret (fst st, snd st, qerr rows).

Definition fetchVideos_query : string := Eval cbv in
  q "SELECT id, ~urlOriginal~, ~heroImage~ FROM ~Video~ WHERE id = ANY($1)".

(** [Repo.fetchVideos]. *)
Definition fetchVideos (r : Repo) (videoIDs : list Z)
  : M (gmap Z Video * list Z * option error) :=
  if (length videoIDs =? 0)%nat then mret (∅, [], None)
  else
    rows ← QueryContext (db r) SVideo fetchVideos_query [pqIntArray videoIDs];
    let st :=
      foldl (fun (st : gmap Z Video * list Z) (x : VideoRow) =>
               (<[vr_dbID x :=
                    mkVideo (Itoa (vr_dbID x)) (vr_VideoSrc x)
                      (match vr_hero x with
                       | Some h =>
                           Some (mkPhoto "" (mkImageFile 0 0) Resized_zero
                                   Resized_zero
                                   (Some {[ "heroImageID" := AnyInt h ]}))
                       | None => None
                       end)]> (fst st),
                appendValid (snd st) (vr_hero x)))
            (∅, []) (qrows rows) in
    mret (fst st, snd st, qerr rows).

Definition fetchTopics_query : string := Eval cbv in
  q "SELECT id, slug FROM ~Topic~ WHERE id = ANY($1)".

(** A [Topic] of which only the slug is set. *)
Definition slugTopic (slug : string) : Topic :=
  mkTopic "" "" slug None "" None None "" "" "" "" None false "" "" "" [] [] []
          None [] "" "" "" "" "" None.

(** [Repo.fetchTopics]. *)
Definition fetchTopics (r : Repo) (ids : list Z)
  : M (gmap Z Topic * option error) :=
  if (length ids =? 0)%nat then mret (∅, None)
  else
    rows ← QueryContext (db r) STopicRef fetchTopics_query [pqIntArray ids];
    mret (foldl (fun m (x : Z * string) => <[fst x := slugTopic (snd x)]> m) ∅
                (qrows rows),
          qerr rows).

Definition fetchImages_query : string := Eval cbv in
  q "SELECT id, COALESCE(~imageFile_id~, ''), COALESCE(~imageFile_extension~, ''), ~imageFile_width~, ~imageFile_height~ FROM ~Image~ WHERE id = ANY($1)".

(** The [Photo] both image loaders build from a row: the stored extension
    for [Resized], the constant webp for [ResizedWebp]. *)
Definition photoOfRow (r : Repo) (im : ImageRow)
  (metadata : option (gmap string any)) : Photo :=
  mkPhoto (Itoa (im_id im))
          (mkImageFile (nullableInt (im_width im)) (nullableInt (im_height im)))
          (buildResizedURLs r (im_fileID im) (im_ext im))
          (buildResizedURLs r (im_fileID im) "webp")
          metadata.

(** [Repo.fetchImages]. *)
Definition fetchImages (r : Repo) (ids : list Z)
  : M (gmap Z Photo * option error) :=
  if (length ids =? 0)%nat then mret (∅, None)
  else
    rows ← QueryContext (db r) SImage fetchImages_query [pqIntArray ids];
    mret (foldl (fun m (im : ImageRow) => <[im_id im := photoOfRow r im None]> m)
                ∅ (qrows rows),
          qerr rows).

Definition fetchPartners_query : string := Eval cbv in
  q "SELECT id, slug, name, ~showOnIndex~, COALESCE(~showThumb~, true), COALESCE(~showBrief~, false) FROM ~Partner~ WHERE id = ANY($1)".

(** [Repo.fetchPartners]. *)
Definition fetchPartners (r : Repo) (ids : list Z)
  : M (gmap Z Partner * option error) :=
  if (length ids =? 0)%nat then mret (∅, None)
  else
    rows ← QueryContext (db r) SPartner fetchPartners_query [pqIntArray ids];
    mret (foldl (fun m (x : PartnerRow) =>
                   <[pa_dbID x :=
                       mkPartner (Itoa (pa_dbID x)) (pa_Slug x) (pa_Name x)
                         (pa_ShowOnIndex x) (pa_ShowThumb x) (pa_ShowBrief x)]> m)
                ∅ (qrows rows),
          qerr rows).

Definition fetchExternalTags_query (table : string) : string :=
  q "SELECT t.~A~ as external_id, tg.id, tg.name, tg.slug FROM ~" +:+ table +:+
  q "~ t JOIN ~Tag~ tg ON tg.id = t.~B~ WHERE t.~A~ = ANY($1)".

(** [Repo.fetchExternalTags]. *)
Definition fetchExternalTags (r : Repo) (table : string) (externalIDs : list Z)
  : M (gmap Z (list Tag) * option error) :=
  if (length externalIDs =? 0)%nat then mret (∅, None)
  else
    rows ← QueryContext (db r) STag (fetchExternalTags_query table)
             [pqIntArray externalIDs];
    mret (foldl (fun m (x : Z * Tag) => appendAt m (fst x) (snd x)) ∅
                (qrows rows),
          qerr rows).

Definition fetchTopicTags_query : string := Eval cbv in
  q "SELECT t.~A~ as topic_id, tg.id, tg.name, tg.slug FROM ~Tag_topics~ t JOIN ~Tag~ tg ON tg.id = t.~B~ WHERE t.~A~ = ANY($1)".

(** [Repo.fetchTopicTags]. *)
Definition fetchTopicTags (r : Repo) (topicIDs : list Z)
  : M (gmap Z (list Tag) * option error) :=
  if (length topicIDs =? 0)%nat then mret (∅, None)
  else
    rows ← QueryContext (db r) STag fetchTopicTags_query [pqIntArray topicIDs];
    mret (foldl (fun m (x : Z * Tag) => appendAt m (fst x) (snd x)) ∅
                (qrows rows),
          qerr rows).

Definition fetchTopicSlideshowImages_query : string := Eval cbv in
  q "SELECT t.~A~ as topic_id, im.id, COALESCE(im.~imageFile_id~, ''), COALESCE(im.~imageFile_extension~, ''), im.~imageFile_width~, im.~imageFile_height~, COALESCE(im.name, '') as name, COALESCE(im.~topicKeywords~, '') as topicKeywords FROM ~Topic_slideshow_images~ t JOIN ~Image~ im ON im.id = t.~B~ WHERE t.~A~ = ANY($1)".

(** [Repo.fetchTopicSlideshowImages]. *)
Definition fetchTopicSlideshowImages (r : Repo) (topicIDs : list Z)
  : M (gmap Z (list Photo) * list Z * option error) :=
  if (length topicIDs =? 0)%nat then mret (∅, [], None)
  else
    rows ← QueryContext (db r) SSlideshow fetchTopicSlideshowImages_query
             [pqIntArray topicIDs];
    let st :=
      foldl (fun (st : gmap Z (list Photo) * list Z) (x : SlideshowRow) =>
               (appendAt (fst st) (sl_tid x)
                  (photoOfRow r (sl_image x)
                     (Some (<["topicKeywords" := AnyString (sl_topicKeywords x)]>
                              {[ "name" := AnyString (sl_name x) ]}))),
                snd st ++ [im_id (sl_image x)]))
            (∅, []) (qrows rows) in
    mret (fst st, snd st, qerr rows).

(** The first loop of [enrichPosts] and of [enrichTopics]: the identifiers
    that parse to a non-zero [int]. *)
Definition collectIDs (ids : list string) : list Z :=
  foldl (fun acc s => let id := fst (Atoi s) in
                      if id =? 0 then acc else acc ++ [id]) [] ids.

(** [if id := getMetaInt(m, key); id > 0 { ids = append(ids, id) }]. *)
Definition appendMeta (ids : list Z) (m : option (gmap string any))
  (key : string) : list Z :=
  let id := getMetaInt m key in
  if 0 <? id then ids ++ [id] else ids.

(** The body of the last loop of [enrichPosts]. *)
Definition attachPost
  (sectionsMap : gmap Z (list Section))
  (categoriesMap : gmap Z (list Category))
  (roleMapWriters roleMapPhotographers roleMapCamera roleMapDesigners
   roleMapEngineers roleMapVocals : gmap Z (list Contact))
  (tagsMap tagsAlgoMap : gmap Z (list Tag))
  (relatedsMap : gmap Z (list Post))
  (relatedSinglePosts : gmap Z Post)
  (videoMap : gmap Z Video)
  (topicMap : gmap Z Topic)
  (imageMap : gmap Z Photo)
  (p : Post) : Post :=
  let id := fst (Atoi (Post_ID p)) in
  let meta := Post_Metadata p in
  mkPost (Post_ID p) (Post_Slug p) (Post_Title p) (Post_Subtitle p)
    (Post_State p) (Post_Style p) (Post_PublishedDate p) (Post_UpdatedAt p)
    (Post_IsMember p) (Post_IsAdult p)
    (at_ sectionsMap id) (at_ sectionsMap id)
    (at_ categoriesMap id) (at_ categoriesMap id)
    (at_ roleMapWriters id) (at_ roleMapWriters id)
    (at_ roleMapPhotographers id)
    (at_ roleMapCamera id)
    (at_ roleMapDesigners id)
    (at_ roleMapEngineers id)
    (at_ roleMapVocals id)
    (Post_ExtendByline p)
    (at_ tagsMap id)
    (at_ tagsAlgoMap id)
    (let vid := getMetaInt meta "heroVideoID" in
     if 0 <? vid then videoMap !! vid else Post_HeroVideo p)
    (let idImg := getMetaInt meta "heroImageID" in
     if 0 <? idImg then imageMap !! idImg else Post_HeroImage p)
    (Post_HeroCaption p) (Post_Brief p) (Post_TrimmedContent p)
    (Post_Content p)
    (at_ relatedsMap id) (at_ relatedsMap id)
    (let r1 := getMetaInt meta "relatedsOneID" in
     if 0 <? r1 then
       match relatedSinglePosts !! r1 with
       | Some rp => Some rp
       | None => Post_RelatedsOne p
       end
     else Post_RelatedsOne p)
    (let r2 := getMetaInt meta "relatedsTwoID" in
     if 0 <? r2 then
       match relatedSinglePosts !! r2 with
       | Some rp => Some rp
       | None => Post_RelatedsTwo p
       end
     else Post_RelatedsTwo p)
    (Post_Redirect p) (Post_OgTitle p)
    (let idImg := getMetaInt meta "ogImageID" in
     if 0 <? idImg then imageMap !! idImg else Post_OgImage p)
    (Post_OgDescription p) (Post_HiddenAdvertised p) (Post_IsAdvertised p)
    (Post_IsFeatured p)
    (let tid := getMetaInt meta "topicsID" in
     if 0 <? tid then
       match topicMap !! tid with
       | Some t => Some t
       | None => Post_Topics p
       end
     else Post_Topics p)
    (Post_Metadata p).

(** [Repo.enrichPosts].  The Go function fills the slice it is given and
    returns an error; the embedding returns the slice as it leaves it. *)
Definition enrichPosts (r : Repo) (posts : list Post)
  : M (list Post * option error) :=
  if (length posts =? 0)%nat then mret (posts, None)
  else
    let postIDs := collectIDs (Post_ID <$> posts) in
    '(sectionsMap, err) ← fetchSections r postIDs;
    match err with Some e => mret (posts, Some e) | None =>
    '(categoriesMap, err) ← fetchCategories r postIDs;
    match err with Some e => mret (posts, Some e) | None =>
    '(roleMapWriters, _) ← fetchContacts r "_Post_writers" postIDs;
    '(roleMapPhotographers, _) ← fetchContacts r "_Post_photographers" postIDs;
    '(roleMapCamera, _) ← fetchContacts r "_Post_camera_man" postIDs;
    '(roleMapDesigners, _) ← fetchContacts r "_Post_designers" postIDs;
    '(roleMapEngineers, _) ← fetchContacts r "_Post_engineers" postIDs;
    '(roleMapVocals, _) ← fetchContacts r "_Post_vocals" postIDs;
    '(tagsMap, _) ← fetchTags r "_Post_tags" postIDs;
    '(tagsAlgoMap, _) ← fetchTags r "_Post_tags_algo" postIDs;
    '(relatedsMap, relatedImageIDs, err) ← fetchRelatedPosts r postIDs;
    match err with Some e => mret (posts, Some e) | None =>
    let imageIDs := relatedImageIDs in
    let relatedOneIDs :=
      foldl (fun acc p => appendMeta acc (Post_Metadata p) "relatedsOneID")
            [] posts in
    let relatedTwoIDs :=
      foldl (fun acc p => appendMeta acc (Post_Metadata p) "relatedsTwoID")
            [] posts in
    let relatedSinglesIDs := relatedOneIDs ++ relatedTwoIDs in
    '(relatedSinglePosts, imageIDs, err) ←
      (if (0 <? length relatedSinglesIDs)%nat then
         '(sps, imgIDs, err) ← fetchPostsByIDs r relatedSinglesIDs;
         match err with
         | Some e => mret (∅, imageIDs, Some e)
         | None =>
             mret (foldl (fun (m : gmap Z Post) sp =>
                            <[fst (Atoi (Post_ID sp)) := sp]> m) ∅ sps,
                   imageIDs ++ imgIDs, None)
         end
       else mret (∅, imageIDs, None));
    match err with Some e => mret (posts, Some e) | None =>
    let st :=
      foldl (fun (st : list Z * list Z * list Z) p =>
               let '(videoIDs, topicIDs, imageIDs) := st in
               let meta := Post_Metadata p in
               (appendMeta videoIDs meta "heroVideoID",
                appendMeta topicIDs meta "topicsID",
                appendMeta (appendMeta imageIDs meta "heroImageID")
                           meta "ogImageID"))
            ([], [], imageIDs) posts in
    let '(videoIDs, topicIDs, imageIDs) := st in
    '(videoMap, videoImageIDs, _) ← fetchVideos r videoIDs;
    let imageIDs := imageIDs ++ videoImageIDs in
    '(topicMap, _) ← fetchTopics r topicIDs;
    '(imageMap, err) ← fetchImages r imageIDs;
    match err with Some e => mret (posts, Some e) | None =>
    mret (attachPost sectionsMap categoriesMap roleMapWriters
            roleMapPhotographers roleMapCamera roleMapDesigners
            roleMapEngineers roleMapVocals tagsMap tagsAlgoMap relatedsMap
            relatedSinglePosts videoMap topicMap imageMap <$> posts,
          None)
    end end end end end.

(** The body of the last loop of [enrichTopics]. *)
Definition attachTopic
  (tagsMap : gmap Z (list Tag))
  (slideshowMap : gmap Z (list Photo))
  (imageMap : gmap Z Photo)
  (t : Topic) : Topic :=
  let id := fst (Atoi (Topic_ID t)) in
  let meta := Topic_Metadata t in
  mkTopic (Topic_ID t) (Topic_Name t) (Topic_Slug t) (Topic_SortOrder t)
    (Topic_State t) (Topic_Brief t)
    (let idImg := getMetaInt meta "heroImageID" in
     if 0 <? idImg then imageMap !! idImg else Topic_HeroImage t)
    (Topic_HeroURL t) (Topic_Leading t) (Topic_OgTitle t)
    (Topic_OgDescription t)
    (let idImg := getMetaInt meta "ogImageID" in
     if 0 <? idImg then imageMap !! idImg else Topic_OgImage t)
    (Topic_IsFeatured t) (Topic_TitleStyle t) (Topic_Type t) (Topic_Style t)
    (at_ tagsMap id)
    (at_ slideshowMap id) (at_ slideshowMap id)
    (Topic_ManualOrderOfSlideshowImages t) (Topic_Posts t)
    (Topic_Javascript t) (Topic_Dfp t) (Topic_MobileDfp t)
    (Topic_CreatedAt t) (Topic_UpdatedAt t) (Topic_Metadata t).

(** [Repo.enrichTopics]. *)
Definition enrichTopics (r : Repo) (topics : list Topic)
  : M (list Topic * option error) :=
  if (length topics =? 0)%nat then mret (topics, None)
  else
    let topicIDs := collectIDs (Topic_ID <$> topics) in
    let imageIDs :=
      foldl (fun acc t =>
               appendMeta (appendMeta acc (Topic_Metadata t) "heroImageID")
                          (Topic_Metadata t) "ogImageID")
            [] topics in
    '(tagsMap, _) ← fetchTopicTags r topicIDs;
    '(slideshowMap, slideshowImageIDs, _) ← fetchTopicSlideshowImages r topicIDs;
    let imageIDs := imageIDs ++ slideshowImageIDs in
    '(imageMap, err) ← fetchImages r imageIDs;
    match err with
    | Some e => mret (topics, Some e)
    | None => mret (attachTopic tagsMap slideshowMap imageMap <$> topics, None)
    end.

(** ** Public queries *)

(** The text of a [sql.NullTime] column, empty when the column is null. *)
Definition timeText (t : option string) : string := default "" t.

(** What the scan loop of [QueryPosts] and [QueryPostByUnique] makes of a row. *)
Definition postOfRow (x : PostRow) : Post :=
  mkPost (Itoa (pr_dbID x)) (pr_Slug x) (pr_Title x) (pr_Subtitle x)
    (pr_State x) (pr_Style x) (timeText (pr_publishedAt x))
    (timeText (pr_updatedAt x)) (pr_IsMember x) (pr_IsAdult x)
    [] [] [] [] [] [] [] [] [] [] []
    (pr_ExtendByline x) [] [] None None (pr_HeroCaption x)
    (pr_brief x) (pr_content x) (pr_content x)
    [] [] None None (pr_Redirect x) (pr_OgTitle x) None (pr_OgDescription x)
    (pr_HiddenAdvertised x) (pr_IsAdvertised x) (pr_IsFeatured x) None
    (Some (<["relatedsTwoID" := AnyInt (nullableInt (pr_relatedsTwoID x))]>
          (<["relatedsOneID" := AnyInt (nullableInt (pr_relatedsOneID x))]>
          (<["topicsID" := AnyInt (nullableInt (pr_topicsID x))]>
          (<["heroVideoID" := AnyInt (nullableInt (pr_heroVideoID x))]>
          (<["ogImageID" := AnyInt (nullableInt (pr_ogImageID x))]>
          {[ "heroImageID" := AnyInt (nullableInt (pr_heroImageID x)) ]})))))).

(** The cache read that opens a query: the cached value on a hit. *)
Definition cacheRead (r : Repo) (T : CType) (op : string)
  (params : KeyParams) : M (option (cval T)) :=
  match cacheOn r with
  | Some c =>
      '(found, cached, _) ← cacheGet c T (GenerateCacheKey c op params);
      mret (if found : bool then Some cached else None)
  | None => mret None
  end.

(** The cache write that closes a query; its error is dropped. *)
Definition cacheWrite (r : Repo) (T : CType) (op : string)
  (params : KeyParams) (v : cval T) : M unit :=
  match cacheOn r with
  | Some c =>
      _ ← cacheSet c T (GenerateCacheKey c op params) v;
      mret tt
  | None => mret tt
  end.

(** [Repo.QueryPosts]. *)
Definition QueryPosts (r : Repo) (where_ : option PostWhereInput)
  (orders : list OrderRule) (take skip : Z) : M (list Post * option error) :=
  let where_ := ensurePostPublished where_ in
  let key := KeyPosts where_ orders take skip in
  hit ← cacheRead r CPosts "posts" key;
  match hit with
  | Some cachedPosts => mret (cachedPosts, None)
  | None =>
      let b := QueryPosts_statement where_ orders take skip in
      rows ← QueryContext (db r) SPost (sb b) (args b);
      match qerr rows with
      | Some e => mret ([], Some e)
      | None =>
          let posts := postOfRow <$> qrows rows in
          if (length posts =? 0)%nat then mret (posts, None)
          else
            '(posts, err) ← enrichPosts r posts;
            match err with
            | Some e => mret ([], Some e)
            | None =>
                _ ← cacheWrite r CPosts "posts" key posts;
                mret (posts, None)
            end
      end
  end.

(** [Repo.QueryPostsCount]. *)
Definition QueryPostsCount (r : Repo) (where_ : option PostWhereInput)
  : M (Z * option error) :=
  let where_ := ensurePostPublished where_ in
  let b := QueryPostsCount_statement where_ in
  res ← QueryRowContext (db r) SCount (sb b) (args b);
  match res with
  | inr e => mret (0, Some e)
  | inl count => mret (count, None)
  end.

(** The statement [QueryPostByUnique] sends: [id] before [slug]; none when
    neither is given. *)
Definition QueryPostByUnique_statement (w : PostWhereUniqueInput)
  : option (string * list Arg) :=
  let select := postColumns +:+ " WHERE " in
  match PostUnique_ID w, PostUnique_Slug w with
  | Some id, _ =>
      Some (select +:+ "id = $" +:+ Itoa 1 +:+ " LIMIT 1", [ArgString id])
  | None, Some slug =>
      Some (select +:+ "slug = $" +:+ Itoa 1 +:+ " LIMIT 1", [ArgString slug])
  | None, None => None
  end.

(** [Repo.QueryPostByUnique]. *)
Definition QueryPostByUnique (r : Repo) (where_ : option PostWhereUniqueInput)
  : M (option Post * option error) :=
  match where_ with
  | None => mret (None, None)
  | Some w =>
      hit ← cacheRead r CPost "post:unique" (KeyPostUnique w);
      match hit with
      | Some cachedPost => mret (cachedPost, None)
      | None =>
          match QueryPostByUnique_statement w with
          | None => mret (None, None)
          | Some (text, args) =>
              res ← QueryRowContext (db r) SPost text args;
              match res with
              | inr ErrNoRows => mret (None, None)
              | inr e => mret (None, Some e)
              | inl x =>
                  '(posts, err) ← enrichPosts r [postOfRow x];
                  match err with
                  | Some e => mret (None, Some e)
                  | None =>
                      let p := default (postOfRow x) (head posts) in
                      _ ← cacheWrite r CPost "post:unique" (KeyPostUnique w)
                            (Some p);
                      mret (Some p, None)
                  end
              end
          end
      end
  end.

(** What the scan loop of [QueryExternals] makes of a row. *)
Definition externalOfRow (x : ExternalRow) : External :=
  mkExternal (Itoa (er_dbID x)) (er_Slug x) None (er_Title x) (er_State x)
    (timeText (er_pubAt x)) (er_ExtendByline x) (er_Thumb x)
    (er_ThumbCaption x) (er_Brief x) (er_Content x) (timeText (er_updAt x))
    [] []
    (match er_partnerID x with
     | Some pid => Some {[ "partnerID" := AnyInt pid ]}
     | None => None
     end).

(** The body of the last loop of [QueryExternals]. *)
Definition attachExternal (partners : gmap Z Partner)
  (tagsMap : gmap Z (list Tag)) (e : External) : External :=
  let pid := getMetaInt (External_Metadata e) "partnerID" in
  let idInt := fst (Atoi (External_ID e)) in
  mkExternal (External_ID e) (External_Slug e)
    (if 0 <? pid then partners !! pid else External_Partner e)
    (External_Title e) (External_State e) (External_PublishedDate e)
    (External_ExtendByline e) (External_Thumb e) (External_ThumbCaption e)
    (External_Brief e) (External_Content e) (External_UpdatedAt e)
    (at_ tagsMap idInt) (External_Relateds e) (External_Metadata e).

(** [Repo.QueryExternals]. *)
Definition QueryExternals (r : Repo) (where_ : option ExternalWhereInput)
  (orders : list OrderRule) (take skip : Z)
  : M (list External * option error) :=
  let where_ := ensureExternalPublished where_ in
  let key := KeyExternals where_ orders take skip in
  hit ← cacheRead r CExternals "externals" key;
  match hit with
  | Some cachedExternals => mret (cachedExternals, None)
  | None =>
      let b := QueryExternals_statement where_ orders take skip in
      rows ← QueryContext (db r) SExternal (sb b) (args b);
      match qerr rows with
      | Some e => mret ([], Some e)
      | None =>
          let result := externalOfRow <$> qrows rows in
          let partnerIDs :=
            foldl (fun acc x => appendValid acc (er_partnerID x)) []
                  (qrows rows) in
          let externalIDs := er_dbID <$> qrows rows in
          '(partners, _) ← fetchPartners r partnerIDs;
          '(tagsMap, _) ← fetchExternalTags r "_External_tags" externalIDs;
          let result := attachExternal partners tagsMap <$> result in
          _ ← cacheWrite r CExternals "externals" key result;
          mret (result, None)
      end
  end.

(** [Repo.QueryExternalsCount]. *)
Definition QueryExternalsCount (r : Repo) (where_ : option ExternalWhereInput)
  : M (Z * option error) :=
  let where_ := ensureExternalPublished where_ in
  let b := QueryExternalsCount_statement where_ in
  res ← QueryRowContext (db r) SCount (sb b) (args b);
  match res with
  | inr e => mret (0, Some e)
  | inl count => mret (count, None)
  end.

(** What the scan of [QueryTopics] and [QueryTopicByUnique] makes of a row. *)
Definition topicOfRow (x : TopicRow) : Topic :=
  mkTopic (Itoa (tr_dbID x)) (tr_Name x) (tr_Slug x) (tr_sortOrder x)
    (tr_State x) (tr_brief x) None (tr_HeroURL x) (tr_Leading x)
    (tr_OgTitle x) (tr_OgDescription x) None (tr_IsFeatured x)
    (tr_TitleStyle x) (tr_Type x) (tr_Style x) [] [] [] None []
    (tr_Javascript x) (tr_Dfp x) (tr_MobileDfp x)
    (timeText (tr_createdAt x)) (timeText (tr_updatedAt x))
    (Some (<["ogImageID" := AnyInt (nullableInt (tr_ogImageID x))]>
          {[ "heroImageID" := AnyInt (nullableInt (tr_heroImageID x)) ]})).

(** [Repo.QueryTopics]. *)
Definition QueryTopics (r : Repo) (where_ : option TopicWhereInput)
  (orders : list OrderRule) (take skip : Z) : M (list Topic * option error) :=
  let key := KeyTopics where_ orders take skip in
  hit ← cacheRead r CTopics "topics" key;
  match hit with
  | Some cachedTopics => mret (cachedTopics, None)
  | None =>
      let b := QueryTopics_statement where_ orders take skip in
      rows ← QueryContext (db r) STopic (sb b) (args b);
      match qerr rows with
      | Some e => mret ([], Some e)
      | None =>
          let topics := topicOfRow <$> qrows rows in
          if (length topics =? 0)%nat then mret (topics, None)
          else
            '(topics, err) ← enrichTopics r topics;
            match err with
            | Some e => mret ([], Some e)
            | None =>
                _ ← cacheWrite r CTopics "topics" key topics;
                mret (topics, None)
            end
      end
  end.

(** [Repo.QueryTopicsCount]. *)
Definition QueryTopicsCount (r : Repo) (where_ : option TopicWhereInput)
  : M (Z * option error) :=
  hit ← cacheRead r CCount "topicsCount" (KeyTopicsCount where_);
  match hit with
  | Some cachedCount => mret (cachedCount, None)
  | None =>
      let b := QueryTopicsCount_statement where_ in
      res ← QueryRowContext (db r) SCount (sb b) (args b);
      match res with
      | inr e => mret (0, Some e)
      | inl count =>
          _ ← cacheWrite r CCount "topicsCount" (KeyTopicsCount where_) count;
          mret (count, None)
      end
  end.

(** The statement [QueryTopicByUnique] sends: [id] before [slug] before
    [name]; none when none is given. *)
Definition QueryTopicByUnique_statement (w : TopicWhereUniqueInput)
  : option (string * list Arg) :=
  let select := topicColumns +:+ " WHERE " in
  match TopicUnique_ID w, TopicUnique_Slug w, TopicUnique_Name w with
  | Some id, _, _ =>
      Some (select +:+ "id = $" +:+ Itoa 1 +:+ " LIMIT 1", [ArgString id])
  | None, Some slug, _ =>
      Some (select +:+ "slug = $" +:+ Itoa 1 +:+ " LIMIT 1", [ArgString slug])
  | None, None, Some name =>
      Some (select +:+ "name = $" +:+ Itoa 1 +:+ " LIMIT 1", [ArgString name])
  | None, None, None => None
  end.

(** [Repo.QueryTopicByUnique]. *)
Definition QueryTopicByUnique (r : Repo)
  (where_ : option TopicWhereUniqueInput) : M (option Topic * option error) :=
  match where_ with
  | None => mret (None, None)
  | Some w =>
      hit ← cacheRead r CTopic "topic:unique" (KeyTopicUnique w);
      match hit with
      | Some cachedTopic => mret (cachedTopic, None)
      | None =>
          match QueryTopicByUnique_statement w with
          | None => mret (None, None)
          | Some (text, args) =>
              res ← QueryRowContext (db r) STopic text args;
              match res with
              | inr ErrNoRows => mret (None, None)
              | inr e => mret (None, Some e)
              | inl x =>
                  '(topics, err) ← enrichTopics r [topicOfRow x];
                  match err with
                  | Some e => mret (None, Some e)
                  | None =>
                      let t := default (topicOfRow x) (head topics) in
                      _ ← cacheWrite r CTopic "topic:unique" (KeyTopicUnique w)
                            (Some t);
                      mret (Some t, None)
                  end
              end
          end
      end
  end.

(** ** The earlier in-memory store *)

(** [main.go] of the first version of the service answered the same queries
    from a sample store held in memory. *)
Module InMemory.

(** [applyPagination].  [None] is the run-time panic of [items[skip:end]] for
    a negative [skip] ([parsePagination] never passes one). *)
Definition applyPagination {T : Type} (items : list T) (take skip : Z)
  : option (list T) :=
  let n := Z.of_nat (length items) in
  if n <=? skip then Some []
  else
    let end_ := if (0 <? take) && (skip + take <? n) then skip + take else n in
    if skip <? 0 then None
    else Some (firstn (Z.to_nat (end_ - skip)) (skipn (Z.to_nat skip) items)).

End InMemory.

(** ** What the database makes of the statements *)

(** The rows of a statement that ends in the [LIMIT] and [OFFSET] clauses
    [writeLimitOffset] wrote, given the rows of the statement without them. *)
Definition pageOf {T : Type} (take skip : Z) (rows : list T) : list T :=
  let rows := if 0 <? skip then skipn (Z.to_nat skip) rows else rows in
  if 0 <? take then firstn (Z.to_nat take) rows else rows.

#[global] Instance RelatedRow_eq_dec : EqDecision RelatedRow.
Proof. solve_decision. Defined.

(** The rows of the statement of [fetchRelatedPosts] over a [Post] table
    (its columns id, slug, title and heroImage) and the join table
    [_Post_relateds] (its columns A and B): the first [SELECT] keys each edge
    by its A column and joins the post of its B column, the second does the
    converse, and [UNION] keeps one copy of each row. *)
Definition relatedRows (posts : list PostByIDRow) (edges : list (Z * Z))
  (ids : list Z) : list RelatedRow :=
  let select (owner other : Z * Z -> Z) :=
    flat_map (fun e =>
                if bool_decide (owner e ∈ ids) then
                  (fun p => mkRelatedRow (owner e) (pb_dbID p) (pb_Slug p)
                              (pb_Title p) (pb_hero p))
                    <$> filter (fun p => pb_dbID p = other e) posts
                else []) edges in
  remove_dups (select fst snd ++ select snd fst).

(** A database that holds these two tables and nothing else. *)
Definition relatedDB (posts : list PostByIDRow) (edges : list (Z * Z)) : DB :=
  fun S =>
    match S return string -> list Arg -> QueryResult (row S) with
    | SRelated => fun query args =>
        match args with
        | [ArgInts ids] =>
            if String.eqb query fetchRelatedPosts_query then
              mkQueryResult (relatedRows posts edges ids) None
            else mkQueryResult [] None
        | _ => mkQueryResult [] None
        end
    | _ => fun _ _ => mkQueryResult [] None
    end.

(** A database with no rows that reports [e] for the statements [fails]
    selects and succeeds on every other. *)
Definition failingDB (fails : string -> bool) (e : error) : DB :=
  fun S query _ => mkQueryResult [] (if fails query then Some e else None).

(** The row of the [External] table as far as the predicates of the two
    External queries look at it; [xr_partnerSlug] is the slug of the joined
    [Partner] row, if the row has a partner. *)
Record ExternalTableRow := mkExternalTableRow {
  xr_slug : string;
  xr_state : string;
  xr_publishedDate : option string;
  xr_partnerSlug : option string
}.

(** [stripPrefix p s]: [s] without its prefix [p]. *)
Fixpoint stripPrefix (p s : string) : option string :=
  match p with
  | EmptyString => Some s
  | String c p' =>
      match s with
      | String d s' => if Ascii.eqb c d then stripPrefix p' s' else None
      | EmptyString => None
      end
  end.

(** The argument a placeholder [$n] stands for. *)
Definition argOf (args : list Arg) (n : string) : option Arg :=
  match Atoi n with
  | (k, None) => if 1 <=? k then args !! Z.to_nat (k - 1) else None
  | _ => None
  end.

(** Whether a row satisfies one predicate of [QueryExternals_conds] or
    [QueryExternalsCount_conds], as SQL reads it: a comparison with a null
    column is not satisfied. *)
Definition externalSatisfies (args : list Arg) (x : ExternalTableRow)
  (cond : string) : bool :=
  let text (n : string) : option string :=
    match argOf args n with
    | Some (ArgString s) => Some s
    | _ => None
    end in
  let equal (column : option string) (n : string) : bool :=
    match column, text n with
    | Some v, Some s => String.eqb v s
    | _, _ => false
    end in
  if String.eqb cond publishedNotNull then
    match xr_publishedDate x with Some _ => true | None => false end
  else
    match stripPrefix "e.slug = $" cond with
    | Some n => equal (Some (xr_slug x)) n
    | None =>
    match stripPrefix "e.state = $" cond with
    | Some n => equal (Some (xr_state x)) n
    | None =>
    match stripPrefix "p.slug = $" cond with
    | Some n => equal (xr_partnerSlug x) n
    | None =>
    match stripPrefix (q "e.~publishedDate~ = $") cond with
    | Some n => equal (xr_publishedDate x) n
    | None =>
    match stripPrefix (q "e.~publishedDate~ <> $") cond with
    | Some n =>
        match xr_publishedDate x, text n with
        | Some v, Some s => negb (String.eqb v s)
        | _, _ => false
        end
    | None => false
    end end end end end.

(** The rows of a table that satisfy every predicate of a built statement. *)
Definition externalMatches (b : Builder) (table : list ExternalTableRow)
  : list ExternalTableRow :=
  List.filter (fun x => forallb (externalSatisfies (args b) x) (conds b)) table.

(** ** Reading an operation *)

(** The statements an operation sent to the database, in order. *)
Definition queries (l : list Event) : list (string * list Arg) :=
  omap (fun ev => match ev with
                  | EvQuery query args => Some (query, args)
                  | _ => None
                  end) l.

(** The same repository without a cache ([r.cache == nil]). *)
Definition noCache (r : Repo) : Repo := mkRepo (db r) (staticsHost r) None.

(** The cache is disabled or absent, or it is enabled and finds nothing,
    whether or not the read reports an error. *)
Definition cacheMisses (r : Repo) : Prop :=
  match cacheOn r with
  | Some c => forall (T : CType) (key : string), fst (fst (Get c T key)) = false
  | None => True
  end.

(** A state predicate with a placeholder whose argument is [v]. *)
Definition hasStatePredicate (column v : string) (b : Builder) : Prop :=
  exists k : Z,
    1 <= k /\
    column +:+ " = $" +:+ Itoa k ∈ conds b /\
    args b !! Z.to_nat (k - 1) = Some (ArgString v).

(** ** Sample databases *)

(** A database whose [Image] table answers the statement of [fetchImages]
    with [rows], whatever the identifiers asked for. *)
Definition imagesDB (rows : list ImageRow) : DB :=
  fun S =>
    match S return string -> list Arg -> QueryResult (row S) with
    | SImage => fun query _ =>
        if String.eqb query fetchImages_query then mkQueryResult rows None
        else mkQueryResult [] None
    | _ => fun _ _ => mkQueryResult [] None
    end.

(** ** Reading a builder *)

(** Every placeholder written so far has its argument: [argIdx] is one more
    than the number of arguments. *)
Definition aligned (b : Builder) : Prop :=
  argIdx b = Z.of_nat (length (args b)) + 1.

(** [b'] is [b] after more steps: predicates and arguments were only added
    at the end, one placeholder index per argument. *)
Definition extends (b b' : Builder) : Prop :=
  exists (cs : list string) (more : list Arg),
    conds b' = conds b ++ cs /\
    args b' = args b ++ more /\
    argIdx b' = argIdx b + Z.of_nat (length more).

(** A predicate that is not an equality on the state column. *)
Definition notStateEquals (c : string) : Prop :=
  forall k : string, c <> "state = $" +:+ k.

(** The zero value of each cached type. *)
Definition cvalZero (T : CType) : cval T :=
  match T with
  | CPosts => []
  | CPost => None
  | CExternals => []
  | CTopics => []
  | CTopic => None
  | CCount => 0
  end.

(** A cache that is enabled and whose backend is down: every read and every
    write reports an error, and a read finds nothing. *)
Definition brokenCache : Cache :=
  mkCache true
    (fun T _ => (false, cvalZero T, Some (ErrOther "dial tcp: connection refused")))
    (fun T _ _ => Some (ErrOther "dial tcp: connection refused"))
    (fun op _ => op).

(** A database whose [Post] table answers every statement on it with [rows]. *)
Definition postsDB (rows : list PostRow) : DB :=
  fun S =>
    match S return string -> list Arg -> QueryResult (row S) with
    | SPost => fun _ _ => mkQueryResult rows None
    | _ => fun _ _ => mkQueryResult [] None
    end.

(** A row of the [Post] table with the given identifier and slug and nothing
    else set. *)
Definition samplePostRow (id : Z) (slug : string) : PostRow :=
  mkPostRow id slug "" "" "published" "" false false None None "" "" None None
            None None "" "" "" false false false None None None None.

(** The database honours the [LIMIT] and [OFFSET] clauses of a statement:
    the rows it delivers for the statement [b] are the page [pageOf] cuts
    from the rows it delivers for the same statement without the clauses. *)
Definition honoursLimitOffset (d : DB) (S : Shape) (unbounded b : Builder)
  (take skip : Z) : Prop :=
  qrows (d S (sb b) (args b))
  = pageOf take skip (qrows (d S (sb unbounded) (args unbounded))).

(** A database whose [Post] table answers the statement [bounded] with
    [page] and every other statement with [full]. *)
Definition pagedPostsDB (bounded : string) (page full : list PostRow) : DB :=
  fun S =>
    match S return string -> list Arg -> QueryResult (row S) with
    | SPost => fun query _ =>
        mkQueryResult (if String.eqb query bounded then page else full) None
    | _ => fun _ _ => mkQueryResult [] None
    end.

(** The result of an operation satisfies [Q]. *)
Definition yields {A : Type} (m : M A) (Q : A -> Prop) : Prop := Q (result m).

(** The database reports [e] for a statement, whatever its arguments. *)
Definition statementFails (d : DB) (S : Shape) (query : string) (e : error)
  : Prop :=
  forall args : list Arg, qerr (d S query args) = Some e.

(** The database reports no error for a statement, whatever its arguments. *)
Definition statementSucceeds (d : DB) (S : Shape) (query : string) : Prop :=
  forall args : list Arg, qerr (d S query args) = None.

(** Some post of the batch refers to a singular related article. *)
Definition hasRelatedSingle (posts : list Post) : Prop :=
  exists p, p ∈ posts /\
            (0 < getMetaInt (Post_Metadata p) "relatedsOneID" \/
             0 < getMetaInt (Post_Metadata p) "relatedsTwoID").

(** Some post of the batch refers to a hero image or to an og image. *)
Definition hasImage (posts : list Post) : Prop :=
  exists p, p ∈ posts /\
            (0 < getMetaInt (Post_Metadata p) "heroImageID" \/
             0 < getMetaInt (Post_Metadata p) "ogImageID").

(** A database whose [External] table answers every statement on it with
    [rows], and which reports [e] for the statements [fails] selects. *)
Definition externalsDB (rows : list ExternalRow) (fails : string -> bool)
  (e : error) : DB :=
  fun S =>
    match S return string -> list Arg -> QueryResult (row S) with
    | SExternal => fun _ _ => mkQueryResult rows None
    | _ => fun query _ =>
        mkQueryResult [] (if fails query then Some e else None)
    end.

(** A database whose [Post] table answers every statement on it with
    [rows], and which reports [e] for the statements [fails] selects. *)
Definition postsFailingDB (rows : list PostRow) (fails : string -> bool)
  (e : error) : DB :=
  fun S =>
    match S return string -> list Arg -> QueryResult (row S) with
    | SPost => fun _ _ => mkQueryResult rows None
    | _ => fun query _ =>
        mkQueryResult [] (if fails query then Some e else None)
    end.

(** The database reports no error, whatever the statement. *)
Definition neverFails (d : DB) : Prop :=
  forall (S : Shape) (query : string) (args : list Arg),
    qerr (d S query args) = None.

(** The database answers the statement of [fetchRelatedPosts] with the rows
    the statement selects from the two tables, in some order. *)
Definition answersRelated (d : DB) (posts : list PostByIDRow)
  (edges : list (Z * Z)) : Prop :=
  forall (ids : list Z) (x : RelatedRow),
    x ∈ qrows (d SRelated fetchRelatedPosts_query [pqIntArray ids])
    <-> x ∈ relatedRows posts edges ids.

(** * Properties *)

(** ** [strconv]: [Atoi] reads back what [Itoa] wrote *)

Section Strconv.

Lemma append_nil_r (s : string) : s +:+ "" = s.
Proof.
  induction s as [|c s IH]; [done|].
  change (String c (s +:+ "") = String c s). by rewrite IH.
Qed.

Lemma append_assoc (s1 s2 s3 : string) :
  (s1 +:+ s2) +:+ s3 = s1 +:+ s2 +:+ s3.
Proof.
  induction s1 as [|c s1 IH]; [done|].
  change (String c ((s1 +:+ s2) +:+ s3) = String c (s1 +:+ s2 +:+ s3)).
  by rewrite IH.
Qed.

Lemma string_of_uint_digit (d : uint) :
  d <> Nil ->
  exists c rest,
    NilZero.string_of_uint d = String c rest /\
    Ascii.eqb c "-" = false /\ Ascii.eqb c "+" = false.
Proof.
  destruct d; intros Hd; try congruence; simpl; eauto 10.
Qed.

Lemma Atoi_Itoa (z : Z) : in_int z -> Atoi (Itoa z) = (z, None).
Proof.
  unfold in_int, minInt, maxInt. intros Hz.
  destruct z as [|p|p]; [reflexivity| |].
  - unfold Itoa. cbn [Z.to_int NilZero.string_of_int].
    pose proof (Unsigned.to_uint_nonnil p) as Hnn.
    destruct (string_of_uint_digit _ Hnn) as (c & rest & Hs & Hm & Hp).
    unfold Atoi. rewrite Hs, Hm, Hp. cbn [orb]. rewrite <- Hs.
    rewrite NilZero.usu by assumption.
    unfold Z.of_uint. rewrite Unsigned.of_to. cbn [Z.of_N].
    destruct (Z.ltb_spec (Z.pos p) minInt); [unfold minInt in *; lia|].
    destruct (Z.ltb_spec maxInt (Z.pos p)); [unfold maxInt in *; lia|].
    reflexivity.
  - unfold Itoa. cbn [Z.to_int NilZero.string_of_int].
    pose proof (Unsigned.to_uint_nonnil p) as Hnn.
    unfold Atoi. cbn [Ascii.eqb Bool.eqb orb].
    rewrite NilZero.usu by assumption.
    unfold Z.of_uint. rewrite Unsigned.of_to. cbn [Z.of_N].
    change (- Z.pos p) with (Z.neg p).
    destruct (Z.ltb_spec (Z.neg p) minInt); [unfold minInt in *; lia|].
    destruct (Z.ltb_spec maxInt (Z.neg p)); [unfold maxInt in *; lia|].
    reflexivity.
Qed.

End Strconv.

(** ** Maps built by a scan loop *)

Section ScanLoops.

Context {R V : Type}.

(** [result[key] = value] in a loop: a key that ends up in the map was put
    there by a row. *)
Lemma foldl_insert_lookup (key : R -> Z) (val : R -> V) (rows : list R)
  (m0 : gmap Z V) (k : Z) (v : V) :
  foldl (fun m x => <[key x := val x]> m) m0 rows !! k = Some v ->
  (exists x, x ∈ rows /\ key x = k /\ v = val x) \/ m0 !! k = Some v.
Proof.
  revert m0. induction rows as [|x rows IH]; intros m0; cbn [foldl].
  - auto.
  - intros H. destruct (IH _ H) as [(y & Hy & Hk & Hv)|Hm].
    + left. exists y. split; [by apply elem_of_cons; right|done].
    + destruct (decide (key x = k)) as [Heq|Hne].
      * subst k. rewrite lookup_insert_eq in Hm. injection Hm as <-.
        left. exists x. split; [by apply elem_of_cons; left|done].
      * rewrite lookup_insert_ne in Hm by done. by right.
Qed.

(** [result[key] = append(result[key], value)] in a loop: under each key, the
    values of its rows, in the order of the rows. *)
Lemma foldl_appendAt (key : R -> Z) (val : R -> V) (rows : list R)
  (m0 : gmap Z (list V)) (k : Z) :
  at_ (foldl (fun m x => appendAt m (key x) (val x)) m0 rows) k
  = at_ m0 k ++ (val <$> filter (fun x => key x = k) rows).
Proof.
  revert m0. induction rows as [|x rows IH]; intros m0; cbn [foldl].
  - by rewrite app_nil_r.
  - rewrite IH. unfold at_, appendAt.
    destruct (decide (key x = k)) as [Heq|Hne].
    + rewrite filter_cons_True by done. subst k.
      rewrite lookup_insert_eq. cbn. by rewrite <- app_assoc.
    + rewrite filter_cons_False by done. by rewrite lookup_insert_ne.
Qed.

(** The same loop carrying a second accumulator beside the map. *)
Lemma foldl_fst {A B : Type} (f : A -> R -> A) (g : A * B -> R -> B)
  (rows : list R) (a : A) (b : B) :
  fst (foldl (fun st x => (f (fst st) x, g st x)) (a, b) rows)
  = foldl f a rows.
Proof.
  revert a b. induction rows as [|x rows IH]; intros a b; cbn [foldl]; [done|].
  apply IH.
Qed.

End ScanLoops.

(** ** C10: derived media URLs *)

(** C10.  The derived URLs are a function of the file identifier, the
    extension and the static-asset host alone: an empty file identifier gives
    six empty URLs, an empty extension stands for jpg, and every photo that
    [fetchImages] builds carries as its webp variant the URLs computed with the
    extension webp, whatever extension the row stores; for a file identifier
    that is not empty these are the six URLs that end in .webp. *)
Theorem buildResizedURLs_derived (r : Repo) (fileID ext : string) :
  buildResizedURLs r "" ext = mkResized "" "" "" "" "" "" /\
  buildResizedURLs r fileID "" = buildResizedURLs r fileID "jpg" /\
  (forall r' : Repo,
      staticsHost r' = staticsHost r ->
      buildResizedURLs r' fileID ext = buildResizedURLs r fileID ext) /\
  (fileID <> "" ->
   buildResizedURLs r fileID "webp"
   = mkResized (staticsHost r +:+ "/" +:+ fileID +:+ ".webp")
               (staticsHost r +:+ "/" +:+ fileID +:+ "-w480.webp")
               (staticsHost r +:+ "/" +:+ fileID +:+ "-w800.webp")
               (staticsHost r +:+ "/" +:+ fileID +:+ "-w1200.webp")
               (staticsHost r +:+ "/" +:+ fileID +:+ "-w1600.webp")
               (staticsHost r +:+ "/" +:+ fileID +:+ "-w2400.webp")) /\
  (forall (ids : list Z) (id : Z) (photo : Photo),
      fst (result (fetchImages r ids)) !! id = Some photo ->
      exists im : ImageRow,
        im ∈ qrows (db r SImage fetchImages_query [pqIntArray ids]) /\
        im_id im = id /\
        Photo_Resized photo = buildResizedURLs r (im_fileID im) (im_ext im) /\
        Photo_ResizedWebp photo = buildResizedURLs r (im_fileID im) "webp").
Proof.
  repeat split.
  - intros r' Hhost. unfold buildResizedURLs. by rewrite Hhost.
  - intros Hne. unfold buildResizedURLs.
    destruct (String.eqb_spec fileID "") as [->|_]; [done|].
    unfold makeURL. cbn [String.eqb Ascii.eqb Bool.eqb].
    repeat f_equal.
  - intros ids id photo. unfold fetchImages, result.
    destruct (length ids =? 0)%nat.
    + cbn. by rewrite lookup_empty.
    + cbn. intros H.
      apply foldl_insert_lookup in H as [(im & Him & Hid & ->)|H].
      * exists im. by repeat split.
      * by rewrite lookup_empty in H.
Qed.

(** The webp variant of a stored png, through [fetchImages]. *)
Lemma buildResizedURLs_derived_witness :
  let r := mkRepo (imagesDB [mkImageRow 7 "abc" "png" (Some 640) None])
                  "https://s" None in
  Photo_ResizedWebp <$> fst (result (fetchImages r [7])) !! 7
  = Some (mkResized "https://s/abc.webp" "https://s/abc-w480.webp"
            "https://s/abc-w800.webp" "https://s/abc-w1200.webp"
            "https://s/abc-w1600.webp" "https://s/abc-w2400.webp").
Proof.
  intros r.
  destruct (buildResizedURLs_derived r "abc" "png") as (_ & _ & _ & Hwebp & Hf).
  destruct (fst (result (fetchImages r [7])) !! 7) as [photo|] eqn:E;
    [|vm_compute in E; discriminate E].
  destruct (Hf [7] 7 photo E) as (im & Him & _ & _ & Hw).
  vm_compute in Him. apply list_elem_of_singleton in Him. subst im.
  cbn [fmap option_fmap option_map]. rewrite Hw. cbn [im_fileID].
  rewrite Hwebp by discriminate. reflexivity.
Defined.

(** ** C3: the order translator *)

(** The direction after normalisation is one of the two keywords: the
    fallback unless the upper-cased text is the other one. *)
Lemma direction_normalized (fallback other d : string) :
  (fallback = "ASC" /\ other = "DESC") \/ (fallback = "DESC" /\ other = "ASC") ->
  (if negb (String.eqb d "ASC") && negb (String.eqb d "DESC")
   then fallback else d)
  = (if String.eqb d other then other else fallback).
Proof.
  intros [[-> ->]|[-> ->]];
    destruct (String.eqb_spec d "ASC") as [E1|E1];
    destruct (String.eqb_spec d "DESC") as [E2|E2]; cbn; congruence.
Qed.

(** A field that differs from every name of a list is not in the list. *)
Ltac not_listed :=
  let Hin := fresh "Hin" in
  intros Hin;
  repeat (apply elem_of_cons in Hin as [?|Hin]; [congruence|]);
  by apply elem_of_nil in Hin.

(** C3 as the specification words it fails: a direction that is neither
    ascending nor descending does not give the fixed default order when the
    field is a recognized one; the field is kept. *)
Lemma order_unknown_direction_keeps_field :
  buildOrderClause (mkOrderRule "title" "sideways") = q "~title~ DESC" /\
  buildOrderClause (mkOrderRule "title" "sideways") <> q "~publishedDate~ DESC" /\
  buildExternalOrder (mkOrderRule "updatedAt" "sideways")
    <> q "e.~publishedDate~ DESC" /\
  buildTopicOrderClause (mkOrderRule "name" "sideways") = "name ASC" /\
  buildTopicOrderClause (mkOrderRule "name" "sideways")
    <> q "~sortOrder~ ASC NULLS LAST, ~createdAt~ DESC".
Proof. repeat split; vm_compute; congruence. Qed.

(** C3, amended.  The direction is upper-cased and compared with the two
    keywords; for a recognized field the clause is that field with the
    direction, where a direction that is neither keyword counts as the default
    direction of the entity (descending for Post and External, ascending for
    Topic); a field outside the recognized set gives the fixed default order
    of the entity.  Directions that differ in case only give the same
    clause. *)
Theorem order_clause_normalized :
  (forall rule : OrderRule,
      let dir := if String.eqb (ToUpper (Direction rule)) "ASC"
                 then "ASC" else "DESC" in
      buildOrderClause rule
      = if bool_decide (Field rule ∈ ["publishedDate"; "updatedAt"; "title"])
        then q "~" +:+ Field rule +:+ q "~ " +:+ dir
        else q "~publishedDate~ DESC") /\
  (forall rule : OrderRule,
      let dir := if String.eqb (ToUpper (Direction rule)) "ASC"
                 then "ASC" else "DESC" in
      buildExternalOrder rule
      = if bool_decide (Field rule ∈ ["publishedDate"; "updatedAt"])
        then q "e.~" +:+ Field rule +:+ q "~ " +:+ dir
        else q "e.~publishedDate~ DESC") /\
  (forall rule : OrderRule,
      let dir := if String.eqb (ToUpper (Direction rule)) "DESC"
                 then "DESC" else "ASC" in
      buildTopicOrderClause rule
      = if String.eqb (Field rule) "sortOrder"
        then q "~sortOrder~ " +:+ dir +:+ " NULLS LAST"
        else if bool_decide (Field rule ∈ ["createdAt"; "updatedAt"])
        then q "~" +:+ Field rule +:+ q "~ " +:+ dir
        else if bool_decide (Field rule ∈ ["name"; "slug"])
        then Field rule +:+ " " +:+ dir
        else q "~sortOrder~ ASC NULLS LAST, ~createdAt~ DESC") /\
  (forall (field d1 d2 : string),
      ToUpper d1 = ToUpper d2 ->
      buildOrderClause (mkOrderRule field d1)
      = buildOrderClause (mkOrderRule field d2) /\
      buildExternalOrder (mkOrderRule field d1)
      = buildExternalOrder (mkOrderRule field d2) /\
      buildTopicOrderClause (mkOrderRule field d1)
      = buildTopicOrderClause (mkOrderRule field d2)) /\
  Forall (fun d => buildOrderClause (mkOrderRule "title" d) = q "~title~ ASC")
         ["asc"; "Asc"; "aSc"; "asC"; "ASc"; "AsC"; "aSC"; "ASC"] /\
  Forall (fun d => buildTopicOrderClause (mkOrderRule "name" d) = "name DESC")
         ["desc"; "Desc"; "dEsc"; "deSC"; "DESC"].
Proof.
  split; [|split; [|split; [|split; [|split]]]].
  - intros [f d]; cbn [Field Direction]. unfold buildOrderClause.
    cbn [Field Direction].
    rewrite (direction_normalized "DESC" "ASC") by (right; done).
    destruct (String.eqb_spec f "publishedDate") as [->|H1]; [done|].
    destruct (String.eqb_spec f "updatedAt") as [->|H2]; [done|].
    destruct (String.eqb_spec f "title") as [->|H3]; [done|].
    rewrite bool_decide_eq_false_2; [done|]. not_listed.
  - intros [f d]; cbn [Field Direction]. unfold buildExternalOrder.
    cbn [Field Direction].
    rewrite (direction_normalized "DESC" "ASC") by (right; done).
    destruct (String.eqb_spec f "publishedDate") as [->|H1]; [done|].
    destruct (String.eqb_spec f "updatedAt") as [->|H2]; [done|].
    rewrite bool_decide_eq_false_2; [done|]. not_listed.
  - intros [f d]; cbn [Field Direction]. unfold buildTopicOrderClause.
    cbn [Field Direction].
    rewrite (direction_normalized "ASC" "DESC") by (left; done).
    destruct (String.eqb_spec f "sortOrder") as [->|H1]; [done|].
    destruct (String.eqb_spec f "createdAt") as [->|H2]; [done|].
    destruct (String.eqb_spec f "updatedAt") as [->|H3]; [done|].
    destruct (String.eqb_spec f "name") as [->|H4]; [done|].
    destruct (String.eqb_spec f "slug") as [->|H5]; [done|].
    rewrite !bool_decide_eq_false_2; [done| |]; not_listed.
  - intros f d1 d2 H.
    unfold buildOrderClause, buildExternalOrder, buildTopicOrderClause.
    cbn [Field Direction]. by rewrite H.
  - repeat constructor.
  - repeat constructor.
Qed.

(** Two spellings of the same direction, on a recognized field. *)
Lemma order_clause_normalized_witness :
  ToUpper "asc" = ToUpper "Asc" /\
  buildOrderClause (mkOrderRule "updatedAt" "asc")
  = buildOrderClause (mkOrderRule "updatedAt" "Asc") /\
  buildOrderClause (mkOrderRule "updatedAt" "asc") = q "~updatedAt~ ASC" /\
  buildOrderClause (mkOrderRule "author" "asc") = q "~publishedDate~ DESC".
Proof.
  destruct order_clause_normalized as (Hpost & _ & _ & Hcase & _).
  split; [reflexivity|]. split; [|split].
  - by apply (Hcase "updatedAt" "asc" "Asc").
  - by rewrite (Hpost (mkOrderRule "updatedAt" "asc")).
  - by rewrite (Hpost (mkOrderRule "author" "asc")).
Defined.

(** ** The steps of a builder *)

Section BuilderSteps.

Lemma extends_refl b : extends b b.
Proof. exists [], []. rewrite !app_nil_r. cbn. split_and!; [done|done|lia]. Qed.

Lemma extends_trans b1 b2 b3 : extends b1 b2 -> extends b2 b3 -> extends b1 b3.
Proof.
  intros (cs & more & Hc & Ha & Hi) (cs' & more' & Hc' & Ha' & Hi').
  exists (cs ++ cs'), (more ++ more'). rewrite Hc', Hc, Ha', Ha, Hi', Hi.
  rewrite !app_assoc, length_app. split_and!; [done|done|lia].
Qed.

Lemma extends_aligned b b' : extends b b' -> aligned b -> aligned b'.
Proof.
  intros (cs & more & _ & Ha & Hi). unfold aligned. intros Hb.
  rewrite Hi, Ha, Hb, length_app. lia.
Qed.

Lemma extends_conds b b' c : extends b b' -> c ∈ conds b -> c ∈ conds b'.
Proof.
  intros (cs & more & Hc & _ & _) Hin. rewrite Hc. apply elem_of_app. by left.
Qed.

Lemma extends_args b b' i a :
  extends b b' -> args b !! i = Some a -> args b' !! i = Some a.
Proof.
  intros (cs & more & _ & Ha & _) Hin. rewrite Ha. by apply lookup_app_l_Some.
Qed.

Lemma extends_writeString b s : extends b (writeString b s).
Proof. exists [], []. cbn. rewrite !app_nil_r. split_and!; [done|done|lia]. Qed.

Lemma extends_appendCond b c : extends b (appendCond b c).
Proof. exists [c], []. cbn. rewrite app_nil_r. split_and!; [done|done|lia]. Qed.

Lemma extends_appendArg b a : extends b (appendArg b a).
Proof. exists [], [a]. cbn. rewrite app_nil_r. split_and!; [done|done|lia]. Qed.

Lemma extends_placeholder b c a : extends b (appendArg (appendCond b c) a).
Proof. eapply extends_trans; [apply extends_appendCond|apply extends_appendArg]. Qed.

Lemma extends_buildStringFilterIn field f b :
  extends b (buildStringFilterIn field f b).
Proof.
  unfold buildStringFilterIn. destruct f as [[eqv ins n]|]; [|apply extends_refl].
  cbn [SF_Equals SF_In].
  destruct (Nat.ltb 0 (length ins)); destruct eqv;
    eauto using extends_trans, extends_placeholder, extends_refl.
Qed.

Lemma extends_buildStringFilter field f b :
  extends b (buildStringFilter field f b).
Proof.
  unfold buildStringFilter. destruct f as [[[eqv|] ins n]|]; cbn [SF_Equals];
    eauto using extends_placeholder, extends_refl.
Qed.

Lemma extends_buildBooleanFilter column f b :
  extends b (buildBooleanFilter column f b).
Proof.
  unfold buildBooleanFilter. destruct (bfEquals f);
    eauto using extends_placeholder, extends_refl.
Qed.

Lemma extends_subAnd column v st :
  extends (snd st) (snd (subAnd column v st)).
Proof.
  unfold subAnd. destruct v; cbn [snd];
    eauto using extends_appendArg, extends_refl.
Qed.

Lemma extends_buildSectionsFilter f b : extends b (buildSectionsFilter f b).
Proof.
  unfold buildSectionsFilter. destruct f as [[[some|]]|]; try apply extends_refl.
  eapply extends_trans; [|apply extends_appendCond].
  eapply extends_trans; [|apply extends_subAnd].
  apply (extends_subAnd _ _ (_, b)).
Qed.

Lemma extends_buildCategoriesFilter f b : extends b (buildCategoriesFilter f b).
Proof.
  unfold buildCategoriesFilter.
  destruct f as [[[some|]]|]; try apply extends_refl.
  eapply extends_trans; [|apply extends_appendCond].
  eapply extends_trans; [|apply extends_subAnd].
  eapply extends_trans; [|apply extends_subAnd].
  apply (extends_subAnd _ _ (_, b)).
Qed.

Lemma extends_buildPartnerFilter f b : extends b (buildPartnerFilter f b).
Proof.
  unfold buildPartnerFilter. destruct (partnerSlugEquals f);
    [|apply extends_refl].
  eapply extends_trans; [apply extends_writeString|apply extends_placeholder].
Qed.

Lemma extends_buildPublishedDateFilter f b :
  extends b (buildPublishedDateFilter f b).
Proof.
  unfold buildPublishedDateFilter.
  destruct f as [[eqv [[neq nn]|]]|]; cbn [DT_Equals DT_Not];
    [destruct neq, eqv|destruct eqv|];
    eauto 6 using extends_trans, extends_placeholder, extends_appendCond,
      extends_refl.
Qed.

Lemma extends_writeWhere b : extends b (writeWhere b).
Proof.
  unfold writeWhere. destruct (Nat.ltb 0 (length (conds b)));
    eauto using extends_trans, extends_writeString, extends_refl.
Qed.

Lemma extends_writeLimitOffset take skip b :
  extends b (writeLimitOffset take skip b).
Proof.
  unfold writeLimitOffset. destruct (0 <? take), (0 <? skip);
    eauto using extends_trans, extends_writeString, extends_refl.
Qed.

Lemma aligned_newBuilder select : aligned (newBuilder select).
Proof. reflexivity. Qed.

End BuilderSteps.

(** One step back along a chain of builder steps. *)
Ltac extends_step :=
  first
    [ apply extends_writeLimitOffset | apply extends_writeWhere
    | apply extends_buildPartnerFilter | apply extends_buildPublishedDateFilter
    | apply extends_buildCategoriesFilter | apply extends_buildSectionsFilter
    | apply extends_buildBooleanFilter | apply extends_buildStringFilter
    | apply extends_buildStringFilterIn | apply extends_placeholder
    | apply extends_appendArg | apply extends_appendCond
    | apply extends_writeString ].

(** A chain of builder steps, from the builder on the left to the one on the
    right. *)
Ltac extends_chain :=
  repeat first
    [ assumption
    | apply extends_refl
    | eapply extends_trans; [|extends_step] ].

(** ** C1: the published-state default *)

Section PublishedDefault.

Lemma hasStatePredicate_extends column v b b' :
  extends b b' -> hasStatePredicate column v b -> hasStatePredicate column v b'.
Proof.
  intros Hext (k & Hk & Hc & Ha). exists k.
  eauto using extends_conds, extends_args.
Qed.

(** A placeholder step on the state column binds the placeholder it writes
    to the value it appends. *)
Lemma placeholder_state column v b :
  aligned b ->
  hasStatePredicate column v
    (appendArg (appendCond b (column +:+ " = $" +:+ Itoa (argIdx b)))
               (ArgString v)).
Proof.
  unfold aligned. intros Hb. exists (argIdx b). cbn [conds args appendArg appendCond].
  split_and!.
  - lia.
  - apply elem_of_app. right. by apply list_elem_of_singleton.
  - replace (Z.to_nat (argIdx b - 1)) with (length (args b)) by lia.
    by rewrite lookup_app_r, Nat.sub_diag by lia.
Qed.

Lemma buildStringFilterIn_state column v ins n b :
  aligned b ->
  hasStatePredicate column v
    (buildStringFilterIn column (Some (mkStringFilter (Some v) ins n)) b).
Proof.
  intros Hb. unfold buildStringFilterIn. cbn [SF_Equals SF_In].
  destruct (Nat.ltb 0 (length ins)); [|by apply placeholder_state].
  eapply hasStatePredicate_extends; [apply extends_placeholder|].
  by apply placeholder_state.
Qed.

Lemma buildStringFilter_state column v ins n b :
  aligned b ->
  hasStatePredicate column v
    (buildStringFilter column (Some (mkStringFilter (Some v) ins n)) b).
Proof. intros Hb. by apply placeholder_state. Qed.

(** The statements of the four Post and External queries, for a filter whose
    state has [equals]. *)
Lemma QueryPosts_state (w : PostWhereInput) v ins n orders take skip :
  PostWhere_State w = Some (mkStringFilter (Some v) ins n) ->
  hasStatePredicate "state" v (QueryPosts_statement w orders take skip).
Proof.
  intros Hs. unfold QueryPosts_statement, QueryPosts_conds. rewrite Hs.
  eapply hasStatePredicate_extends;
    [|apply buildStringFilterIn_state;
      eapply extends_aligned;
      [apply (extends_buildStringFilterIn "slug")|apply aligned_newBuilder]].
  destruct orders; extends_chain.
Qed.

Lemma QueryPostsCount_state (w : PostWhereInput) v ins n :
  PostWhere_State w = Some (mkStringFilter (Some v) ins n) ->
  hasStatePredicate "state" v (QueryPostsCount_statement w).
Proof.
  intros Hs. unfold QueryPostsCount_statement, QueryPostsCount_conds. rewrite Hs.
  eapply hasStatePredicate_extends;
    [|apply buildStringFilter_state;
      eapply extends_aligned;
      [apply (extends_buildStringFilter "slug")|apply aligned_newBuilder]].
  extends_chain.
Qed.

Lemma QueryExternals_state (w : ExternalWhereInput) v ins n orders take skip :
  ExternalWhere_State w = Some (mkStringFilter (Some v) ins n) ->
  hasStatePredicate "e.state" v (QueryExternals_statement w orders take skip).
Proof.
  intros Hs. unfold QueryExternals_statement, QueryExternals_conds. rewrite Hs.
  assert (aligned (if orderUsesPublished orders
                   then appendCond (newBuilder externalColumns) publishedNotNull
                   else newBuilder externalColumns)) as Hal.
  { destruct (orderUsesPublished orders); [|apply aligned_newBuilder].
    eapply extends_aligned; [apply extends_appendCond|apply aligned_newBuilder]. }
  eapply hasStatePredicate_extends;
    [|apply buildStringFilter_state;
      eapply extends_aligned;
      [apply (extends_buildStringFilter "e.slug")|exact Hal]].
  destruct orders; extends_chain.
Qed.

Lemma QueryExternalsCount_state (w : ExternalWhereInput) v ins n :
  ExternalWhere_State w = Some (mkStringFilter (Some v) ins n) ->
  hasStatePredicate "e.state" v (QueryExternalsCount_statement w).
Proof.
  intros Hs. unfold QueryExternalsCount_statement, QueryExternalsCount_conds.
  rewrite Hs.
  eapply hasStatePredicate_extends;
    [|apply buildStringFilter_state;
      eapply extends_aligned;
      [apply (extends_buildStringFilter "e.slug")|apply aligned_newBuilder]].
  extends_chain.
Qed.

Lemma conds_buildStringFilterIn (P : string -> Prop) field f b :
  (forall k, P (field +:+ " = $" +:+ k)) ->
  (forall k, P (field +:+ " = ANY($" +:+ k +:+ ")")) ->
  Forall P (conds b) -> Forall P (conds (buildStringFilterIn field f b)).
Proof.
  intros He Ha Hb. unfold buildStringFilterIn.
  destruct f as [[eqv ins n]|]; [|done]. cbn [SF_Equals SF_In].
  destruct (Nat.ltb 0 (length ins)); destruct eqv;
    cbn [conds appendArg appendCond argIdx];
    repeat (apply Forall_app; split); auto.
Qed.

Lemma conds_buildStringFilter (P : string -> Prop) field f b :
  (forall k, P (field +:+ " = $" +:+ k)) ->
  Forall P (conds b) -> Forall P (conds (buildStringFilter field f b)).
Proof.
  intros He Hb. unfold buildStringFilter.
  destruct f as [[[eqv|] ins n]|]; [|done|done]. cbn [conds appendArg appendCond].
  apply Forall_app; auto.
Qed.

Lemma conds_buildBooleanFilter (P : string -> Prop) column f b :
  (forall k, P (column +:+ " = $" +:+ k)) ->
  Forall P (conds b) -> Forall P (conds (buildBooleanFilter column f b)).
Proof.
  intros He Hb. unfold buildBooleanFilter. destruct (bfEquals f); [|done].
  cbn [conds appendArg appendCond]. apply Forall_app; auto.
Qed.

Lemma conds_writeWhere b : conds (writeWhere b) = conds b.
Proof. unfold writeWhere. by destruct (Nat.ltb 0 (length (conds b))). Qed.

Lemma conds_writeLimitOffset take skip b :
  conds (writeLimitOffset take skip b) = conds b.
Proof. unfold writeLimitOffset. by destruct (0 <? take), (0 <? skip). Qed.

Lemma args_writeWhere b : args (writeWhere b) = args b.
Proof. unfold writeWhere. by destruct (Nat.ltb 0 (length (conds b))). Qed.

Lemma args_writeLimitOffset take skip b :
  args (writeLimitOffset take skip b) = args b.
Proof. unfold writeLimitOffset. by destruct (0 <? take), (0 <? skip). Qed.

Lemma QueryTopics_no_state (where_ : option TopicWhereInput) b :
  where_ ≫= TopicWhere_State = None ->
  Forall notStateEquals (conds b) ->
  Forall notStateEquals (conds (QueryTopics_conds where_ b)) /\
  Forall notStateEquals (conds (QueryTopicsCount_conds where_ b)).
Proof.
  intros Hs Hb. destruct where_ as [w|]; [|done]. cbn in Hs.
  unfold QueryTopics_conds, QueryTopicsCount_conds. rewrite Hs.
  change (buildStringFilterIn "state" None ?x) with x.
  change (buildStringFilter "state" None ?x) with x.
  split.
  - apply conds_buildBooleanFilter; [intros k; cbn; discriminate|].
    repeat (apply conds_buildStringFilterIn;
            [intros k; cbn; discriminate|intros k; cbn; discriminate|]).
    done.
  - apply conds_buildBooleanFilter; [intros k; cbn; discriminate|].
    repeat (apply conds_buildStringFilter; [intros k; cbn; discriminate|]).
    done.
Qed.

Lemma notStateEquals_hasStatePredicate v b :
  Forall notStateEquals (conds b) -> ~ hasStatePredicate "state" v b.
Proof.
  intros Hall (k & _ & Hin & _). rewrite Forall_forall in Hall.
  by apply (Hall _ Hin (Itoa k)).
Qed.

End PublishedDefault.

(** C1 as the specification words it fails: a Topic list or count query whose
    filter has no state sends a statement with no predicate at all; nothing
    about the published state is in it. *)
Lemma topics_have_no_published_default :
  let r := mkRepo (failingDB (fun _ => false) ErrNoRows) "" None in
  queries (log (QueryTopics r None [] 0 0))
  = [(topicColumns +:+ q " ORDER BY ~sortOrder~ ASC NULLS LAST, ~createdAt~ DESC",
      [])] /\
  queries (log (QueryTopicsCount r None))
  = [(q "SELECT COUNT(*) FROM ~Topic~ t", [])] /\
  conds (QueryTopics_statement None [] 0 0) = [] /\
  conds (QueryTopicsCount_statement None) = [] /\
  ~ hasStatePredicate "state" "published" (QueryTopics_statement None [] 0 0) /\
  ~ hasStatePredicate "state" "published" (QueryTopicsCount_statement None).
Proof.
  cbv zeta. split_and!; try (vm_compute; reflexivity).
  - intros (k & _ & Hin & _). vm_compute in Hin. by apply elem_of_nil in Hin.
  - intros (k & _ & Hin & _). vm_compute in Hin. by apply elem_of_nil in Hin.
Qed.

(** C1, amended.  For the list and the count query on Post and on External:
    when the caller's filter has no state, the statement carries a predicate
    on the state column whose placeholder is bound to published; when the
    caller's filter has a state, the filter is left as it is and the value of
    its [equals] is the one bound to the state predicate.  The list and the
    count query on Topic add no default: with no state in the caller's
    filter, their statement has no equality on the state column. *)
Theorem published_default :
  (forall (where_ : option PostWhereInput) (orders : list OrderRule)
          (take skip : Z),
      let w := ensurePostPublished where_ in
      (where_ ≫= PostWhere_State = None ->
       hasStatePredicate "state" "published"
         (QueryPosts_statement w orders take skip) /\
       hasStatePredicate "state" "published" (QueryPostsCount_statement w)) /\
      (forall w0 f,
          where_ = Some w0 -> PostWhere_State w0 = Some f ->
          w = w0 /\
          forall v, SF_Equals f = Some v ->
            hasStatePredicate "state" v
              (QueryPosts_statement w orders take skip) /\
            hasStatePredicate "state" v (QueryPostsCount_statement w))) /\
  (forall (where_ : option ExternalWhereInput) (orders : list OrderRule)
          (take skip : Z),
      let w := ensureExternalPublished where_ in
      (where_ ≫= ExternalWhere_State = None ->
       hasStatePredicate "e.state" "published"
         (QueryExternals_statement w orders take skip) /\
       hasStatePredicate "e.state" "published"
         (QueryExternalsCount_statement w)) /\
      (forall w0 f,
          where_ = Some w0 -> ExternalWhere_State w0 = Some f ->
          w = w0 /\
          forall v, SF_Equals f = Some v ->
            hasStatePredicate "e.state" v
              (QueryExternals_statement w orders take skip) /\
            hasStatePredicate "e.state" v (QueryExternalsCount_statement w))) /\
  (forall (where_ : option TopicWhereInput) (orders : list OrderRule)
          (take skip : Z) (v : string),
      where_ ≫= TopicWhere_State = None ->
      ~ hasStatePredicate "state" v
          (QueryTopics_statement where_ orders take skip) /\
      ~ hasStatePredicate "state" v (QueryTopicsCount_statement where_)).
Proof.
  split_and!.
  - intros where_ orders take skip w. split.
    + intros Hs.
      assert (PostWhere_State w
              = Some (mkStringFilter (Some "published") [] None)) as Hw.
      { subst w. unfold ensurePostPublished.
        destruct where_ as [w0|]; cbn in Hs |- *; [by rewrite Hs|done]. }
      eauto using QueryPosts_state, QueryPostsCount_state.
    + intros w0 f -> Hf. subst w. unfold ensurePostPublished. rewrite Hf.
      split; [done|]. intros v Hv. destruct f as [eqv ins n]. cbn in Hv.
      subst eqv. eauto using QueryPosts_state, QueryPostsCount_state.
  - intros where_ orders take skip w. split.
    + intros Hs.
      assert (ExternalWhere_State w
              = Some (mkStringFilter (Some "published") [] None)) as Hw.
      { subst w. unfold ensureExternalPublished.
        destruct where_ as [w0|]; cbn in Hs |- *; [by rewrite Hs|done]. }
      eauto using QueryExternals_state, QueryExternalsCount_state.
    + intros w0 f -> Hf. subst w. unfold ensureExternalPublished. rewrite Hf.
      split; [done|]. intros v Hv. destruct f as [eqv ins n]. cbn in Hv.
      subst eqv. eauto using QueryExternals_state, QueryExternalsCount_state.
  - intros where_ orders take skip v Hs.
    destruct (QueryTopics_no_state where_ (newBuilder topicColumns) Hs)
      as [Hl _]; [constructor|].
    destruct (QueryTopics_no_state where_
                (newBuilder (q "SELECT COUNT(*) FROM ~Topic~ t")) Hs)
      as [_ Hc]; [constructor|].
    split; apply notStateEquals_hasStatePredicate.
    + unfold QueryTopics_statement. rewrite conds_writeLimitOffset.
      destruct orders; cbn [conds writeString]; by rewrite conds_writeWhere.
    + unfold QueryTopicsCount_statement. by rewrite conds_writeWhere.
Qed.

(** A list of posts with no filter: the state predicate is the first
    placeholder and its argument is published. *)
Lemma published_default_witness :
  (None : option PostWhereInput) ≫= PostWhere_State = None /\
  hasStatePredicate "state" "published"
    (QueryPosts_statement (ensurePostPublished None) [] 10 0) /\
  sb (QueryPosts_statement (ensurePostPublished None) [] 10 0)
  = postColumns +:+ q " WHERE state = $1 ORDER BY ~publishedDate~ DESC LIMIT 10" /\
  args (QueryPosts_statement (ensurePostPublished None) [] 10 0)
  = [ArgString "published"].
Proof.
  split; [reflexivity|]. split; [|split; reflexivity].
  destruct published_default as [H _].
  destruct (H None [] 10 0) as [H1 _].
  apply H1. reflexivity.
Defined.

(** ** C5 and C9: the null publish timestamps of External *)

Section ExternalNullPublish.

Lemma conds_buildPartnerFilter (P : string -> Prop) f b :
  (forall k, P ("p.slug = $" +:+ k)) ->
  Forall P (conds b) -> Forall P (conds (buildPartnerFilter f b)).
Proof.
  intros Hp Hb. unfold buildPartnerFilter. destruct (partnerSlugEquals f); [|done].
  cbn [conds appendArg appendCond writeString]. apply Forall_app; auto.
Qed.

(** The caller's own filter asks for a publish timestamp that is not null:
    [publishedDate: {not: {equals: null}}]. *)
Lemma conds_buildPublishedDateFilter (P : string -> Prop) f b :
  (forall k, P (q "e.~publishedDate~ = $" +:+ k)) ->
  (forall k, P (q "e.~publishedDate~ <> $" +:+ k)) ->
  ((exists f0 n, f = Some f0 /\ DT_Not f0 = Some n /\ DT_Equals n = None) ->
   P publishedNotNull) ->
  Forall P (conds b) -> Forall P (conds (buildPublishedDateFilter f b)).
Proof.
  intros He Hn Hnull Hb. unfold buildPublishedDateFilter.
  destruct f as [[eqv [[neq nn]|]]|]; cbn [DT_Equals DT_Not]; [| |done].
  - destruct neq, eqv; cbn [conds appendArg appendCond argIdx];
      repeat (apply Forall_app; split); auto;
      apply Forall_singleton, Hnull; eauto.
  - destruct eqv; cbn [conds appendArg appendCond]; [|done].
    apply Forall_app; auto.
Qed.

Lemma buildPublishedDateFilter_not_null f0 n b :
  DT_Not f0 = Some n -> DT_Equals n = None ->
  publishedNotNull ∈ conds (buildPublishedDateFilter (Some f0) b).
Proof.
  intros Hn He. unfold buildPublishedDateFilter. rewrite Hn, He.
  cbn [conds appendCond]. apply elem_of_app. right.
  by apply list_elem_of_singleton.
Qed.

Lemma conds_QueryExternals_statement w orders take skip :
  conds (QueryExternals_statement w orders take skip)
  = conds (QueryExternals_conds w orders (newBuilder externalColumns)).
Proof.
  unfold QueryExternals_statement. rewrite conds_writeLimitOffset.
  destruct orders; cbn [conds writeString]; by rewrite conds_writeWhere.
Qed.

Lemma QueryExternals_order_adds w orders take skip :
  orderUsesPublished orders = true ->
  publishedNotNull ∈ conds (QueryExternals_statement w orders take skip).
Proof.
  intros Hu. rewrite conds_QueryExternals_statement.
  unfold QueryExternals_conds. rewrite Hu.
  eapply (extends_conds (appendCond (newBuilder externalColumns)
                                      publishedNotNull)); [extends_chain|].
  cbn [conds appendCond newBuilder]. by apply list_elem_of_singleton.
Qed.

Lemma QueryExternals_filter_adds w orders take skip f0 n :
  ExternalWhere_PublishedDate w = Some f0 ->
  DT_Not f0 = Some n -> DT_Equals n = None ->
  publishedNotNull ∈ conds (QueryExternals_statement w orders take skip).
Proof.
  intros Hf Hn He. rewrite conds_QueryExternals_statement.
  unfold QueryExternals_conds. rewrite Hf.
  eapply extends_conds; [apply extends_buildPartnerFilter|].
  by eapply buildPublishedDateFilter_not_null.
Qed.

Lemma QueryExternals_filter_conds w b :
  ~ (exists f0 n,
        ExternalWhere_PublishedDate w = Some f0 /\
        DT_Not f0 = Some n /\ DT_Equals n = None) ->
  Forall (fun c => c <> publishedNotNull) (conds b) ->
  Forall (fun c => c <> publishedNotNull)
    (conds (buildPartnerFilter (ExternalWhere_Partner w)
              (buildPublishedDateFilter (ExternalWhere_PublishedDate w)
                 (buildStringFilter "e.state" (ExternalWhere_State w)
                    (buildStringFilter "e.slug" (ExternalWhere_Slug w) b))))).
Proof.
  intros Hno Hb.
  apply conds_buildPartnerFilter; [intros k; cbn; discriminate|].
  apply conds_buildPublishedDateFilter;
    [intros k; cbn; discriminate|intros k; cbn; discriminate| |].
  - intros (f0 & n & Hf & Hn & He). exfalso. apply Hno. eauto.
  - repeat (apply conds_buildStringFilter; [intros k; cbn; discriminate|]).
    exact Hb.
Qed.

Lemma QueryExternals_nothing_else w orders take skip :
  orderUsesPublished orders = false ->
  publishedNotNull ∈ conds (QueryExternals_statement w orders take skip) ->
  exists f0 n,
    ExternalWhere_PublishedDate w = Some f0 /\
    DT_Not f0 = Some n /\ DT_Equals n = None.
Proof.
  intros Hu. rewrite conds_QueryExternals_statement.
  unfold QueryExternals_conds. rewrite Hu. intros Hin.
  destruct (ExternalWhere_PublishedDate w) as [f0|] eqn:Hf;
    [destruct (DT_Not f0) as [n|] eqn:Hn;
     [destruct (DT_Equals n) as [v|] eqn:He|]|];
    try solve [eauto].
  all: exfalso;
    assert (~ (exists f1 n1,
                  ExternalWhere_PublishedDate w = Some f1 /\
                  DT_Not f1 = Some n1 /\ DT_Equals n1 = None)) as Hno
      by (intros (f1 & n1 & H1 & H2 & H3); congruence);
    pose proof (QueryExternals_filter_conds w (newBuilder externalColumns)
                  Hno (List.Forall_nil _)) as Hall;
    rewrite Hf in Hall; rewrite Forall_forall in Hall;
    by apply (Hall _ Hin).
Qed.

Lemma QueryExternalsCount_shape w :
  Forall (fun c => exists k, c = "e.slug = $" +:+ k \/
                             c = "e.state = $" +:+ k \/
                             c = "p.slug = $" +:+ k)
         (conds (QueryExternalsCount_statement w)).
Proof.
  unfold QueryExternalsCount_statement, QueryExternalsCount_conds.
  rewrite conds_writeWhere.
  apply conds_buildPartnerFilter; [eauto|].
  repeat (apply conds_buildStringFilter; [eauto|]). constructor.
Qed.

End ExternalNullPublish.

(** C5.  A listing of External whose order rule is absent, or whose first
    order rule names the publish timestamp, has the predicate that excludes a
    null publish timestamp among its predicates.  A listing whose first order
    rule names another field gets no such predicate from the ordering: the
    predicate is among its predicates exactly when the caller's own filter
    asks for a publish timestamp that is not null. *)
Theorem externals_null_publish_exclusion
  (where_ : option ExternalWhereInput) (orders : list OrderRule)
  (take skip : Z) :
  let w := ensureExternalPublished where_ in
  let b := QueryExternals_statement w orders take skip in
  (orders = [] \/
   (exists rule rest, orders = rule :: rest /\ Field rule = "publishedDate") ->
   publishedNotNull ∈ conds b) /\
  (forall rule rest,
      orders = rule :: rest -> Field rule <> "publishedDate" ->
      (publishedNotNull ∈ conds b <->
       exists f n,
         where_ ≫= ExternalWhere_PublishedDate = Some f /\
         DT_Not f = Some n /\ DT_Equals n = None)).
Proof.
  intros w b.
  assert (ExternalWhere_PublishedDate w
          = where_ ≫= ExternalWhere_PublishedDate) as Hpd.
  { subst w. unfold ensureExternalPublished.
    destruct where_ as [w0|]; cbn; [|done]. by destruct (ExternalWhere_State w0). }
  split.
  - intros Hord. apply QueryExternals_order_adds.
    destruct Hord as [->|(rule & rest & -> & Hf)]; [done|].
    cbn. rewrite Hf. reflexivity.
  - intros rule rest -> Hf. rewrite <- Hpd. split.
    + apply QueryExternals_nothing_else. cbn.
      by destruct (String.eqb_spec (Field rule) "publishedDate").
    + intros (f & n & H1 & H2 & H3).
      by eapply QueryExternals_filter_adds.
Qed.

(** The default listing and a listing by update time, with no filter. *)
Lemma externals_null_publish_exclusion_witness :
  publishedNotNull
  ∈ conds (QueryExternals_statement (ensureExternalPublished None) [] 0 0) /\
  sb (QueryExternals_statement (ensureExternalPublished None) [] 0 0)
  = externalColumns +:+
    q " WHERE e.~publishedDate~ IS NOT NULL AND e.state = $1 ORDER BY e.~publishedDate~ DESC" /\
  sb (QueryExternals_statement (ensureExternalPublished None)
        [mkOrderRule "updatedAt" "asc"] 0 0)
  = externalColumns +:+ q " WHERE e.state = $1 ORDER BY e.~updatedAt~ ASC".
Proof.
  split; [|split; reflexivity].
  apply (externals_null_publish_exclusion None [] 0 0). by left.
Defined.

(** C9.  The count query on External never has the predicate that excludes a
    null publish timestamp: each of its predicates is an equality on the
    slug, on the state or on the partner slug.  The listing in the default
    order always has it.  So on a table that holds one published row with no
    publish timestamp, the rows the count statement selects for an absent
    filter are that row, and the rows the default listing selects are none. *)
Theorem externals_count_keeps_null_publish :
  (forall where_ : option ExternalWhereInput,
      let b := QueryExternalsCount_statement (ensureExternalPublished where_) in
      (publishedNotNull ∉ conds b) /\
      Forall (fun c => exists k, c = "e.slug = $" +:+ k \/
                                 c = "e.state = $" +:+ k \/
                                 c = "p.slug = $" +:+ k) (conds b)) /\
  (forall (where_ : option ExternalWhereInput) (take skip : Z),
      publishedNotNull
      ∈ conds (QueryExternals_statement (ensureExternalPublished where_) []
                 take skip)) /\
  (let table := [mkExternalTableRow "a" "published" None None] in
   let w := ensureExternalPublished None in
   externalMatches (QueryExternalsCount_statement w) table = table /\
   externalMatches (QueryExternals_statement w [] 0 0) table = []).
Proof.
  split_and!.
  - intros where_ b. pose proof (QueryExternalsCount_shape
                                   (ensureExternalPublished where_)) as Hall.
    split; [|exact Hall].
    intros Hin. rewrite Forall_forall in Hall.
    destruct (Hall _ Hin) as (k & [H|[H|H]]); cbn in H; discriminate H.
  - intros where_ take skip. by apply QueryExternals_order_adds.
  - vm_compute. done.
Qed.

(** ** Results and logs of the operations *)

Section Logged.

Lemma result_bind {A B} (m : M A) (f : A -> M B) :
  result (m ≫= f) = result (f (result m)).
Proof.
  unfold mbind, M_bind, result. by destruct (f (fst m)).
Qed.

Lemma log_bind {A B} (m : M A) (f : A -> M B) :
  log (m ≫= f) = log m ++ log (f (result m)).
Proof.
  unfold mbind, M_bind, result, log. by destruct (f (fst m)).
Qed.

Lemma queries_app l1 l2 : queries (l1 ++ l2) = queries l1 ++ queries l2.
Proof. unfold queries. apply omap_app. Qed.

(** The loader reads the database and the static-asset host only. *)
Lemma enrichPosts_noCache r posts :
  enrichPosts (noCache r) posts = enrichPosts r posts.
Proof. by destruct r. Qed.

Lemma enrichTopics_noCache r topics :
  enrichTopics (noCache r) topics = enrichTopics r topics.
Proof. by destruct r. Qed.

Lemma fetchPartners_noCache r ids :
  fetchPartners (noCache r) ids = fetchPartners r ids.
Proof. by destruct r. Qed.

Lemma fetchExternalTags_noCache r table ids :
  fetchExternalTags (noCache r) table ids = fetchExternalTags r table ids.
Proof. by destruct r. Qed.

Lemma cacheRead_noCache r T op params :
  cacheRead (noCache r) T op params = mret None.
Proof. reflexivity. Qed.

Lemma cacheWrite_noCache r T op params v :
  cacheWrite (noCache r) T op params v = mret tt.
Proof. reflexivity. Qed.

Lemma cacheRead_miss r T op params :
  cacheMisses r -> result (cacheRead r T op params) = None.
Proof.
  unfold cacheMisses, cacheRead. destruct (cacheOn r) as [c|]; [|done].
  intros Hm. rewrite result_bind. unfold cacheGet. cbn [result fst].
  specialize (Hm T (GenerateCacheKey c op params)).
  destruct (Get c T (GenerateCacheKey c op params)) as [[found cached] err].
  cbn in Hm. by subst found.
Qed.

Lemma queries_cacheRead r T op params :
  queries (log (cacheRead r T op params)) = [].
Proof.
  unfold cacheRead. destruct (cacheOn r) as [c|]; [|done].
  rewrite log_bind, queries_app. unfold cacheGet. cbn [result log fst snd].
  by destruct (Get c T (GenerateCacheKey c op params)) as [[found cached] err].
Qed.

Lemma queries_cacheWrite r T op params v :
  queries (log (cacheWrite r T op params v)) = [].
Proof.
  unfold cacheWrite. destruct (cacheOn r) as [c|]; [|done].
  by rewrite log_bind, queries_app.
Qed.

End Logged.

(** ** C7: cache failures *)

Section CacheFailures.

Context (r : Repo) (Hmiss : cacheMisses r).

Lemma QueryPosts_miss where_ orders take skip :
  result (QueryPosts r where_ orders take skip)
  = result (QueryPosts (noCache r) where_ orders take skip) /\
  queries (log (QueryPosts r where_ orders take skip))
  = queries (log (QueryPosts (noCache r) where_ orders take skip)).
Proof.
  unfold QueryPosts. cbv zeta.
  rewrite !result_bind, !log_bind, !queries_app.
  rewrite !(queries_cacheRead _ CPosts).
  rewrite (cacheRead_miss _ CPosts) by done. rewrite cacheRead_noCache.
  change (db (noCache r)) with (db r). cbn [result fst mret M_ret].
  rewrite !result_bind, !log_bind, !queries_app.
  cbn [QueryContext result log fst snd].
  destruct (qerr _); [done|].
  destruct (Nat.eqb _ 0); [done|].
  rewrite !result_bind, !log_bind, !queries_app, enrichPosts_noCache.
  set (E := enrichPosts r _). clearbody E.
  destruct E as [[posts [e|]] l]; cbn [result fst]; [done|].
  rewrite !result_bind, !log_bind, !queries_app.
  by rewrite !(queries_cacheWrite _ CPosts).
Qed.

Lemma QueryPostByUnique_miss where_ :
  result (QueryPostByUnique r where_)
  = result (QueryPostByUnique (noCache r) where_) /\
  queries (log (QueryPostByUnique r where_))
  = queries (log (QueryPostByUnique (noCache r) where_)).
Proof.
  unfold QueryPostByUnique. destruct where_ as [w|]; [|done].
  rewrite !result_bind, !log_bind, !queries_app.
  rewrite !(queries_cacheRead _ CPost).
  rewrite (cacheRead_miss _ CPost) by done. rewrite cacheRead_noCache.
  change (db (noCache r)) with (db r). cbn [result fst mret M_ret].
  destruct (QueryPostByUnique_statement w) as [[text args]|]; [|done].
  rewrite !result_bind, !log_bind, !queries_app.
  unfold QueryRowContext. cbn [result log fst snd].
  destruct (qerr _) as [[|msg]|]; [done|done|].
  destruct (qrows _) as [|x rows]; [done|].
  rewrite !result_bind, !log_bind, !queries_app, enrichPosts_noCache.
  set (E := enrichPosts r _). clearbody E.
  destruct E as [[posts [e|]] l]; cbn [result fst]; [done|].
  rewrite !result_bind, !log_bind, !queries_app.
  by rewrite !(queries_cacheWrite _ CPost).
Qed.

Lemma QueryExternals_miss where_ orders take skip :
  result (QueryExternals r where_ orders take skip)
  = result (QueryExternals (noCache r) where_ orders take skip) /\
  queries (log (QueryExternals r where_ orders take skip))
  = queries (log (QueryExternals (noCache r) where_ orders take skip)).
Proof.
  unfold QueryExternals. cbv zeta.
  rewrite !result_bind, !log_bind, !queries_app.
  rewrite !(queries_cacheRead _ CExternals).
  rewrite (cacheRead_miss _ CExternals) by done. rewrite cacheRead_noCache.
  change (db (noCache r)) with (db r). cbn [result fst mret M_ret].
  rewrite !result_bind, !log_bind, !queries_app.
  cbn [QueryContext result log fst snd].
  destruct (qerr _); [done|].
  rewrite !result_bind, !log_bind, !queries_app.
  rewrite fetchPartners_noCache.
  set (P := fetchPartners r _). clearbody P.
  destruct P as [[partners perr] lp]; cbn [result log fst snd].
  rewrite !result_bind, !log_bind, !queries_app.
  rewrite fetchExternalTags_noCache.
  set (T := fetchExternalTags r _ _). clearbody T.
  destruct T as [[tagsMap terr] lt]; cbn [result log fst snd].
  rewrite !result_bind, !log_bind, !queries_app.
  by rewrite !(queries_cacheWrite _ CExternals).
Qed.

Lemma QueryTopics_miss where_ orders take skip :
  result (QueryTopics r where_ orders take skip)
  = result (QueryTopics (noCache r) where_ orders take skip) /\
  queries (log (QueryTopics r where_ orders take skip))
  = queries (log (QueryTopics (noCache r) where_ orders take skip)).
Proof.
  unfold QueryTopics. cbv zeta.
  rewrite !result_bind, !log_bind, !queries_app.
  rewrite !(queries_cacheRead _ CTopics).
  rewrite (cacheRead_miss _ CTopics) by done. rewrite cacheRead_noCache.
  change (db (noCache r)) with (db r). cbn [result fst mret M_ret].
  rewrite !result_bind, !log_bind, !queries_app.
  cbn [QueryContext result log fst snd].
  destruct (qerr _); [done|].
  destruct (Nat.eqb _ 0); [done|].
  rewrite !result_bind, !log_bind, !queries_app, enrichTopics_noCache.
  set (E := enrichTopics r _). clearbody E.
  destruct E as [[topics [e|]] l]; cbn [result fst]; [done|].
  rewrite !result_bind, !log_bind, !queries_app.
  by rewrite !(queries_cacheWrite _ CTopics).
Qed.

Lemma QueryTopicsCount_miss where_ :
  result (QueryTopicsCount r where_)
  = result (QueryTopicsCount (noCache r) where_) /\
  queries (log (QueryTopicsCount r where_))
  = queries (log (QueryTopicsCount (noCache r) where_)).
Proof.
  unfold QueryTopicsCount.
  rewrite !result_bind, !log_bind, !queries_app.
  rewrite !(queries_cacheRead _ CCount).
  rewrite (cacheRead_miss _ CCount) by done. rewrite cacheRead_noCache.
  change (db (noCache r)) with (db r). cbn [result fst mret M_ret].
  rewrite !result_bind, !log_bind, !queries_app.
  unfold QueryRowContext. cbn [result log fst snd].
  destruct (qerr _) as [e|]; [done|].
  destruct (qrows _) as [|x rows]; [done|].
  rewrite !result_bind, !log_bind, !queries_app.
  by rewrite !(queries_cacheWrite _ CCount).
Qed.

Lemma QueryTopicByUnique_miss where_ :
  result (QueryTopicByUnique r where_)
  = result (QueryTopicByUnique (noCache r) where_) /\
  queries (log (QueryTopicByUnique r where_))
  = queries (log (QueryTopicByUnique (noCache r) where_)).
Proof.
  unfold QueryTopicByUnique. destruct where_ as [w|]; [|done].
  rewrite !result_bind, !log_bind, !queries_app.
  rewrite !(queries_cacheRead _ CTopic).
  rewrite (cacheRead_miss _ CTopic) by done. rewrite cacheRead_noCache.
  change (db (noCache r)) with (db r). cbn [result fst mret M_ret].
  destruct (QueryTopicByUnique_statement w) as [[text args]|]; [|done].
  rewrite !result_bind, !log_bind, !queries_app.
  unfold QueryRowContext. cbn [result log fst snd].
  destruct (qerr _) as [[|msg]|]; [done|done|].
  destruct (qrows _) as [|x rows]; [done|].
  rewrite !result_bind, !log_bind, !queries_app, enrichTopics_noCache.
  set (E := enrichTopics r _). clearbody E.
  destruct E as [[topics [e|]] l]; cbn [result fst]; [done|].
  rewrite !result_bind, !log_bind, !queries_app.
  by rewrite !(queries_cacheWrite _ CTopic).
Qed.

End CacheFailures.

(** C7.  When no cache read finds a value, whether the read reports an error
    or not, and whatever the cache writes report, each of the six cached
    operations returns what it returns with no cache at all, value and error
    alike, and sends the same statements to the database: a failed read is a
    miss, a failed write is dropped, and neither reaches the caller. *)
Theorem cache_failures_do_not_surface (r : Repo) :
  cacheMisses r ->
  (forall where_ orders take skip,
      result (QueryPosts r where_ orders take skip)
      = result (QueryPosts (noCache r) where_ orders take skip) /\
      queries (log (QueryPosts r where_ orders take skip))
      = queries (log (QueryPosts (noCache r) where_ orders take skip))) /\
  (forall where_,
      result (QueryPostByUnique r where_)
      = result (QueryPostByUnique (noCache r) where_) /\
      queries (log (QueryPostByUnique r where_))
      = queries (log (QueryPostByUnique (noCache r) where_))) /\
  (forall where_ orders take skip,
      result (QueryExternals r where_ orders take skip)
      = result (QueryExternals (noCache r) where_ orders take skip) /\
      queries (log (QueryExternals r where_ orders take skip))
      = queries (log (QueryExternals (noCache r) where_ orders take skip))) /\
  (forall where_ orders take skip,
      result (QueryTopics r where_ orders take skip)
      = result (QueryTopics (noCache r) where_ orders take skip) /\
      queries (log (QueryTopics r where_ orders take skip))
      = queries (log (QueryTopics (noCache r) where_ orders take skip))) /\
  (forall where_,
      result (QueryTopicsCount r where_)
      = result (QueryTopicsCount (noCache r) where_) /\
      queries (log (QueryTopicsCount r where_))
      = queries (log (QueryTopicsCount (noCache r) where_))) /\
  (forall where_,
      result (QueryTopicByUnique r where_)
      = result (QueryTopicByUnique (noCache r) where_) /\
      queries (log (QueryTopicByUnique r where_))
      = queries (log (QueryTopicByUnique (noCache r) where_))).
Proof.
  intros Hmiss.
  split_and!; intros;
    auto using QueryPosts_miss, QueryPostByUnique_miss, QueryExternals_miss,
      QueryTopics_miss, QueryTopicsCount_miss, QueryTopicByUnique_miss.
Qed.

(** A repository whose cache backend is down still lists the post the
    database holds, and reports no error. *)
Lemma cache_failures_do_not_surface_witness :
  let r := mkRepo (postsDB [samplePostRow 5 "a"]) "https://s"
                  (Some brokenCache) in
  cacheMisses r /\
  result (QueryPosts r None [] 0 0)
  = result (QueryPosts (noCache r) None [] 0 0) /\
  Post_ID <$> fst (result (QueryPosts r None [] 0 0)) = ["5"] /\
  snd (result (QueryPosts r None [] 0 0)) = None /\
  log (QueryPosts r None [] 0 0)
  = EvCacheGet "posts"
    :: log (QueryPosts (noCache r) None [] 0 0) ++ [EvCacheSet "posts"].
Proof.
  intros r.
  assert (cacheMisses r) as Hmiss by (intros T key; reflexivity).
  split; [exact Hmiss|].
  split; [apply (cache_failures_do_not_surface r Hmiss)|].
  split_and!; vm_compute; reflexivity.
Defined.

(** ** C6: unique-key lookups *)

Section UniqueLookup.

Context (r : Repo) (Hmiss : cacheMisses r).

Lemma QueryPostByUnique_run (w : PostWhereUniqueInput) :
  let op := QueryPostByUnique r (Some w) in
  match QueryPostByUnique_statement w with
  | None => result op = (None, None) /\ queries (log op) = []
  | Some (text, args) =>
      head (queries (log op)) = Some (text, args) /\
      (qrows (db r SPost text args) = [] ->
       qerr (db r SPost text args) = None
       \/ qerr (db r SPost text args) = Some ErrNoRows ->
       result op = (None, None) /\ queries (log op) = [(text, args)])
  end.
Proof.
  cbv zeta. unfold QueryPostByUnique.
  rewrite !result_bind, !log_bind, !queries_app.
  rewrite !(queries_cacheRead _ CPost).
  rewrite (cacheRead_miss _ CPost) by done.
  destruct (QueryPostByUnique_statement w) as [[text args]|]; [|done].
  rewrite !result_bind, !log_bind, !queries_app.
  unfold QueryRowContext. cbn [result log fst snd]. split; [done|].
  intros Hrows [Herr|Herr]; rewrite Herr; [rewrite Hrows|]; done.
Qed.

Lemma QueryTopicByUnique_run (w : TopicWhereUniqueInput) :
  let op := QueryTopicByUnique r (Some w) in
  match QueryTopicByUnique_statement w with
  | None => result op = (None, None) /\ queries (log op) = []
  | Some (text, args) =>
      head (queries (log op)) = Some (text, args) /\
      (qrows (db r STopic text args) = [] ->
       qerr (db r STopic text args) = None
       \/ qerr (db r STopic text args) = Some ErrNoRows ->
       result op = (None, None) /\ queries (log op) = [(text, args)])
  end.
Proof.
  cbv zeta. unfold QueryTopicByUnique.
  rewrite !result_bind, !log_bind, !queries_app.
  rewrite !(queries_cacheRead _ CTopic).
  rewrite (cacheRead_miss _ CTopic) by done.
  destruct (QueryTopicByUnique_statement w) as [[text args]|]; [|done].
  rewrite !result_bind, !log_bind, !queries_app.
  unfold QueryRowContext. cbn [result log fst snd]. split; [done|].
  intros Hrows [Herr|Herr]; rewrite Herr; [rewrite Hrows|]; done.
Qed.

End UniqueLookup.

(** C6.  On the database path (the cache is off or finds nothing), a unique
    lookup of a Post or of a Topic sends one statement, on the key chosen by
    the order id, slug, name (name for Topic only), whatever other key fields
    are given; when that statement has no row the lookup returns nil and no
    error; an input with no key field returns nil and no error and sends no
    statement, as does a nil input. *)
Theorem unique_lookup_absent (r : Repo) :
  cacheMisses r ->
  (forall w : PostWhereUniqueInput,
      let op := QueryPostByUnique r (Some w) in
      match QueryPostByUnique_statement w with
      | None => result op = (None, None) /\ queries (log op) = []
      | Some (text, args) =>
          head (queries (log op)) = Some (text, args) /\
          (qrows (db r SPost text args) = [] ->
           qerr (db r SPost text args) = None
           \/ qerr (db r SPost text args) = Some ErrNoRows ->
           result op = (None, None) /\ queries (log op) = [(text, args)])
      end) /\
  (forall w : TopicWhereUniqueInput,
      let op := QueryTopicByUnique r (Some w) in
      match QueryTopicByUnique_statement w with
      | None => result op = (None, None) /\ queries (log op) = []
      | Some (text, args) =>
          head (queries (log op)) = Some (text, args) /\
          (qrows (db r STopic text args) = [] ->
           qerr (db r STopic text args) = None
           \/ qerr (db r STopic text args) = Some ErrNoRows ->
           result op = (None, None) /\ queries (log op) = [(text, args)])
      end) /\
  QueryPostByUnique r None = mret (None, None) /\
  QueryTopicByUnique r None = mret (None, None) /\
  (forall (id : string) (slug : option string),
      QueryPostByUnique_statement (mkPostWhereUniqueInput (Some id) slug)
      = Some (postColumns +:+ " WHERE id = $1 LIMIT 1", [ArgString id])) /\
  (forall slug : string,
      QueryPostByUnique_statement (mkPostWhereUniqueInput None (Some slug))
      = Some (postColumns +:+ " WHERE slug = $1 LIMIT 1", [ArgString slug])) /\
  QueryPostByUnique_statement (mkPostWhereUniqueInput None None) = None /\
  (forall (id : string) (name slug : option string),
      QueryTopicByUnique_statement (mkTopicWhereUniqueInput (Some id) name slug)
      = Some (topicColumns +:+ " WHERE id = $1 LIMIT 1", [ArgString id])) /\
  (forall (name : option string) (slug : string),
      QueryTopicByUnique_statement (mkTopicWhereUniqueInput None name (Some slug))
      = Some (topicColumns +:+ " WHERE slug = $1 LIMIT 1", [ArgString slug])) /\
  (forall name : string,
      QueryTopicByUnique_statement (mkTopicWhereUniqueInput None (Some name) None)
      = Some (topicColumns +:+ " WHERE name = $1 LIMIT 1", [ArgString name])) /\
  QueryTopicByUnique_statement (mkTopicWhereUniqueInput None None None) = None.
Proof.
  intros Hmiss. split_and!; try reflexivity.
  - intros w. by apply QueryPostByUnique_run.
  - intros w. by apply QueryTopicByUnique_run.
Qed.

(** The slug that does not exist, with an id given as well: the lookup is by
    id, it finds no row, and the result is nil with no error. *)
Lemma unique_lookup_absent_witness :
  let r := mkRepo (postsDB []) "https://s" (Some brokenCache) in
  let w := mkPostWhereUniqueInput (Some "41") (Some "does-not-exist") in
  cacheMisses r /\
  result (QueryPostByUnique r (Some w)) = (None, None) /\
  queries (log (QueryPostByUnique r (Some w)))
  = [(postColumns +:+ " WHERE id = $1 LIMIT 1", [ArgString "41"])].
Proof.
  intros r w.
  assert (cacheMisses r) as Hmiss by (intros T key; reflexivity).
  split; [exact Hmiss|].
  destruct (unique_lookup_absent r Hmiss) as (Hpost & _).
  specialize (Hpost w). cbv zeta in Hpost.
  change (QueryPostByUnique_statement w)
    with (Some (postColumns +:+ " WHERE id = $1 LIMIT 1", [ArgString "41"]))
    in Hpost.
  destruct Hpost as [_ Hzero]. apply Hzero; [reflexivity|by left].
Defined.

(** ** C8: pagination *)

Section Pagination.

Lemma pageOf_length {T} (take skip : Z) (rows : list T) :
  0 < take -> Z.of_nat (length (pageOf take skip rows)) <= take.
Proof.
  intros Ht. unfold pageOf. destruct (Z.ltb_spec 0 take); [|lia].
  rewrite length_take. lia.
Qed.

Lemma pageOf_beyond {T} (take skip : Z) (rows : list T) :
  Z.of_nat (length rows) <= skip -> pageOf take skip rows = [].
Proof.
  intros Hs. unfold pageOf.
  assert ((if 0 <? skip then skipn (Z.to_nat skip) rows else rows) = []) as ->.
  { destruct (Z.ltb_spec 0 skip).
    - apply drop_ge. lia.
    - destruct rows; [done|]. cbn in Hs. lia. }
  destruct (0 <? take); [apply firstn_nil|done].
Qed.

(** The in-memory store paginates as the statements do. *)
Lemma applyPagination_pageOf {T} (items : list T) (take skip : Z) :
  0 <= skip ->
  InMemory.applyPagination items take skip = Some (pageOf take skip items).
Proof.
  intros Hs. unfold InMemory.applyPagination.
  destruct (Z.leb_spec (Z.of_nat (length items)) skip) as [Hge|Hlt].
  - by rewrite pageOf_beyond.
  - destruct (Z.ltb_spec skip 0); [lia|]. f_equal. unfold pageOf.
    assert ((if 0 <? skip then skipn (Z.to_nat skip) items else items)
            = skipn (Z.to_nat skip) items) as ->.
    { destruct (Z.ltb_spec 0 skip); [done|].
      by replace skip with 0 by lia. }
    assert (length (skipn (Z.to_nat skip) items)
            = Z.to_nat (Z.of_nat (length items) - skip)) as Hlen.
    { rewrite length_drop. lia. }
    destruct (Z.ltb_spec 0 take) as [Ht|Ht]; cbn [andb].
    + destruct (Z.ltb_spec (skip + take) (Z.of_nat (length items))).
      * f_equal. lia.
      * rewrite !firstn_all2; [done|lia|lia].
    + rewrite firstn_all2; [done|lia].
Qed.

(** A computation whose continuation keeps the length keeps the length. *)
Lemma length_bind {A B} (n : nat) (m : M A) (k : A -> M (list B * option error)) :
  (forall a, length (fst (result (k a))) = n) ->
  length (fst (result (m ≫= k))) = n.
Proof. intros Hk. rewrite result_bind. apply Hk. Qed.

Ltac keep_length :=
  repeat first
    [ progress cbn [result fst mret M_ret]
    | reflexivity
    | apply length_fmap
    | apply length_bind; intros ?;
      repeat match goal with
             | x : (_ * _)%type |- _ => destruct x
             end
    | match goal with
      | |- context [match ?e with _ => _ end] => destruct e
      end ].

Lemma enrichPosts_length r posts :
  length (fst (result (enrichPosts r posts))) = length posts.
Proof. unfold enrichPosts. keep_length. Qed.

Lemma enrichTopics_length r topics :
  length (fst (result (enrichTopics r topics))) = length topics.
Proof. unfold enrichTopics. keep_length. Qed.

Context (r : Repo) (Hmiss : cacheMisses r).

(** On the database path a listing returns at most the rows the database
    delivered for its statement. *)
Lemma QueryPosts_length where_ orders take skip :
  let b := QueryPosts_statement (ensurePostPublished where_) orders take skip in
  (length (fst (result (QueryPosts r where_ orders take skip)))
   <= length (qrows (db r SPost (sb b) (args b))))%nat.
Proof.
  cbv zeta. unfold QueryPosts. cbv zeta.
  rewrite result_bind, (cacheRead_miss _ CPosts) by done.
  rewrite result_bind. cbn [QueryContext result fst].
  destruct (qerr _); [apply Nat.le_0_l|].
  destruct (Nat.eqb _ 0); [cbn [result fst mret M_ret]; by rewrite length_fmap|].
  rewrite result_bind.
  match goal with
  | |- context [enrichPosts r ?p] =>
      pose proof (enrichPosts_length r p) as HL; rewrite length_fmap in HL;
      set (E := enrichPosts r p) in *
  end.
  clearbody E. destruct E as [[posts [e|]] l]; cbn [result fst] in *;
    [apply Nat.le_0_l|].
  rewrite result_bind. cbn [result fst mret M_ret].
  exact (Nat.eq_le_incl _ _ HL).
Qed.

Lemma QueryExternals_length where_ orders take skip :
  let b := QueryExternals_statement (ensureExternalPublished where_) orders
             take skip in
  (length (fst (result (QueryExternals r where_ orders take skip)))
   <= length (qrows (db r SExternal (sb b) (args b))))%nat.
Proof.
  cbv zeta. unfold QueryExternals. cbv zeta.
  rewrite result_bind, (cacheRead_miss _ CExternals) by done.
  rewrite result_bind. cbn [QueryContext result fst].
  destruct (qerr _); [apply Nat.le_0_l|].
  rewrite result_bind.
  set (P := fetchPartners r _). clearbody P.
  destruct P as [[partners perr] lp]; cbn [result fst].
  rewrite result_bind.
  set (T := fetchExternalTags r _ _). clearbody T.
  destruct T as [[tagsMap terr] lt]; cbn [result fst].
  rewrite result_bind. cbn [result fst mret M_ret].
  by rewrite !length_fmap.
Qed.

Lemma QueryTopics_length where_ orders take skip :
  let b := QueryTopics_statement where_ orders take skip in
  (length (fst (result (QueryTopics r where_ orders take skip)))
   <= length (qrows (db r STopic (sb b) (args b))))%nat.
Proof.
  cbv zeta. unfold QueryTopics. cbv zeta.
  rewrite result_bind, (cacheRead_miss _ CTopics) by done.
  rewrite result_bind. cbn [QueryContext result fst].
  destruct (qerr _); [apply Nat.le_0_l|].
  destruct (Nat.eqb _ 0); [cbn [result fst mret M_ret]; by rewrite length_fmap|].
  rewrite result_bind.
  match goal with
  | |- context [enrichTopics r ?p] =>
      pose proof (enrichTopics_length r p) as HL; rewrite length_fmap in HL;
      set (E := enrichTopics r p) in *
  end.
  clearbody E. destruct E as [[topics [e|]] l]; cbn [result fst] in *;
    [apply Nat.le_0_l|].
  rewrite result_bind. cbn [result fst mret M_ret].
  exact (Nat.eq_le_incl _ _ HL).
Qed.

(** What a bound on the delivered rows gives for the returned page. *)
Lemma page_bounds {A T} (page : list A) (rows full : list T) (take skip : Z) :
  (length page <= length rows)%nat ->
  rows = pageOf take skip full ->
  (0 < take -> Z.of_nat (length page) <= take) /\
  (Z.of_nat (length full) <= skip -> page = []).
Proof.
  intros Hle ->. split.
  - intros Ht. pose proof (pageOf_length take skip full Ht). lia.
  - intros Hs. rewrite (pageOf_beyond take skip full Hs) in Hle.
    destruct page; [done|]. cbn in Hle. lia.
Qed.

End Pagination.

(** C8.  The statement of each listing is its statement without pagination
    followed by what [writeLimitOffset] writes: nothing for a take and a skip
    that are not positive, [LIMIT take] for a positive take, [OFFSET skip] for
    a positive skip.  On the database path, against a database that honours
    these clauses, the page a listing returns has at most [take] items when
    [take] is positive, and is empty when [skip] is at least the number of
    rows of the statement without pagination. *)
Theorem pagination_bounds (r : Repo) :
  cacheMisses r ->
  (forall (b : Builder) (take skip : Z),
      sb (writeLimitOffset take skip b)
      = (sb b +:+ (if 0 <? take then " LIMIT " +:+ Itoa take else ""))
        +:+ (if 0 <? skip then " OFFSET " +:+ Itoa skip else "") /\
      args (writeLimitOffset take skip b) = args b /\
      (take <= 0 -> skip <= 0 -> writeLimitOffset take skip b = b)) /\
  (forall where_ orders take skip,
      let w := ensurePostPublished where_ in
      let unbounded := QueryPosts_statement w orders 0 0 in
      let b := QueryPosts_statement w orders take skip in
      let page := fst (result (QueryPosts r where_ orders take skip)) in
      b = writeLimitOffset take skip unbounded /\
      (honoursLimitOffset (db r) SPost unbounded b take skip ->
       (0 < take -> Z.of_nat (length page) <= take) /\
       (Z.of_nat (length (qrows (db r SPost (sb unbounded) (args unbounded))))
        <= skip -> page = []))) /\
  (forall where_ orders take skip,
      let w := ensureExternalPublished where_ in
      let unbounded := QueryExternals_statement w orders 0 0 in
      let b := QueryExternals_statement w orders take skip in
      let page := fst (result (QueryExternals r where_ orders take skip)) in
      b = writeLimitOffset take skip unbounded /\
      (honoursLimitOffset (db r) SExternal unbounded b take skip ->
       (0 < take -> Z.of_nat (length page) <= take) /\
       (Z.of_nat (length (qrows (db r SExternal (sb unbounded)
                                   (args unbounded))))
        <= skip -> page = []))) /\
  (forall where_ orders take skip,
      let unbounded := QueryTopics_statement where_ orders 0 0 in
      let b := QueryTopics_statement where_ orders take skip in
      let page := fst (result (QueryTopics r where_ orders take skip)) in
      b = writeLimitOffset take skip unbounded /\
      (honoursLimitOffset (db r) STopic unbounded b take skip ->
       (0 < take -> Z.of_nat (length page) <= take) /\
       (Z.of_nat (length (qrows (db r STopic (sb unbounded) (args unbounded))))
        <= skip -> page = []))).
Proof.
  intros Hmiss. split_and!.
  - intros b take skip. unfold writeLimitOffset. split_and!.
    + destruct (0 <? take), (0 <? skip); cbn [sb writeString];
        by rewrite ?append_nil_r.
    + by destruct (0 <? take), (0 <? skip).
    + intros Ht Hs.
      destruct (Z.ltb_spec 0 take); [lia|].
      destruct (Z.ltb_spec 0 skip); [lia|]. done.
  - intros where_ orders take skip w unbounded b page. split; [done|].
    intros Hdb. eapply page_bounds; [|exact Hdb].
    by apply QueryPosts_length.
  - intros where_ orders take skip w unbounded b page. split; [done|].
    intros Hdb. eapply page_bounds; [|exact Hdb].
    by apply QueryExternals_length.
  - intros where_ orders take skip unbounded b page. split; [done|].
    intros Hdb. eapply page_bounds; [|exact Hdb].
    by apply QueryTopics_length.
Qed.

(** Three posts in the table, a listing with take 2: two posts come back.
    A listing with skip 3: none. *)
Lemma pagination_bounds_witness :
  let full := [samplePostRow 1 "a"; samplePostRow 2 "b"; samplePostRow 3 "c"] in
  let w := ensurePostPublished None in
  let bounded take skip := sb (QueryPosts_statement w [] take skip) in
  let r take skip :=
    mkRepo (pagedPostsDB (bounded take skip) (pageOf take skip full) full)
           "https://s" None in
  (cacheMisses (r 2 0) /\
   honoursLimitOffset (db (r 2 0)) SPost (QueryPosts_statement w [] 0 0)
     (QueryPosts_statement w [] 2 0) 2 0 /\
   Z.of_nat (length (fst (result (QueryPosts (r 2 0) None [] 2 0)))) <= 2 /\
   Post_ID <$> fst (result (QueryPosts (r 2 0) None [] 2 0)) = ["1"; "2"]) /\
  (cacheMisses (r 0 3) /\
   honoursLimitOffset (db (r 0 3)) SPost (QueryPosts_statement w [] 0 0)
     (QueryPosts_statement w [] 0 3) 0 3 /\
   fst (result (QueryPosts (r 0 3) None [] 0 3)) = []).
Proof.
  intros full w bounded r.
  assert (forall take skip, cacheMisses (r take skip)) as Hmiss by (intros; exact I).
  assert (honoursLimitOffset (db (r 2 0)) SPost (QueryPosts_statement w [] 0 0)
            (QueryPosts_statement w [] 2 0) 2 0) as H20
    by (vm_compute; reflexivity).
  assert (honoursLimitOffset (db (r 0 3)) SPost (QueryPosts_statement w [] 0 0)
            (QueryPosts_statement w [] 0 3) 0 3) as H03
    by (vm_compute; reflexivity).
  split.
  - split; [apply Hmiss|]. split; [exact H20|]. split.
    + destruct (pagination_bounds (r 2 0) (Hmiss 2 0)) as (_ & Hposts & _).
      destruct (Hposts None [] 2 0) as [_ Hb].
      apply (Hb H20). lia.
    + vm_compute. reflexivity.
  - split; [apply Hmiss|]. split; [exact H03|].
    destruct (pagination_bounds (r 0 3) (Hmiss 0 3)) as (_ & Hposts & _).
    destruct (Hposts None [] 0 3) as [_ Hb].
    apply (Hb H03). vm_compute. discriminate.
Defined.

(** ** C2: errors during batch hydration *)

Lemma yields_bind {A B} (m : M A) (P : A -> Prop) (k : A -> M B)
  (Q : B -> Prop) :
  yields m P -> (forall a, P a -> yields (k a) Q) -> yields (m ≫= k) Q.
Proof. unfold yields. intros Hm Hk. rewrite result_bind. by apply Hk. Qed.

Lemma yields_any {A} (m : M A) : yields m (fun _ => True).
Proof. exact I. Qed.

(** A loader whose error is ignored: nothing is known of what it returns. *)
Ltac any_fetch :=
  eapply yields_bind; [apply yields_any|];
  intros ? _;
  repeat match goal with y : (_ * _)%type |- _ => destruct y end;
  cbn beta iota.

(** A loader whose statement succeeds: it returns no error. *)
Ltac ok_fetch lemma H :=
  eapply yields_bind; [apply lemma|];
  let Hx := fresh "Hx" in
  intros ? Hx; rewrite H in Hx;
  repeat match goal with y : (_ * _)%type |- _ => destruct y end;
  cbn [snd fst] in Hx;
  match type of Hx with
  | ?err = (if ?c then None else None) =>
      assert (err = None) as -> by (by destruct c)
  end;
  clear Hx; cbn beta iota.

(** A loader whose statement fails and that has identifiers to ask for: it
    returns the error. *)
Ltac failed_fetch lemma H Hids :=
  eapply yields_bind; [apply lemma|];
  let Hx := fresh "Hx" in
  intros ? Hx; rewrite H in Hx;
  repeat match goal with y : (_ * _)%type |- _ => destruct y end;
  cbn [snd fst] in Hx; rewrite Hids in Hx; subst;
  cbn beta iota.

Section Hydration.

Context (r : Repo).

(** The error a loader returns is the error of its statement, and none when
    it has no identifier to ask for. *)
Lemma fetchSections_error ids :
  yields (fetchSections r ids)
    (fun x => snd x = if (length ids =? 0)%nat then None
                      else qerr (db r SSection fetchSections_query
                                   [pqIntArray ids])).
Proof. unfold yields, fetchSections. by destruct (Nat.eqb (length ids) 0). Qed.

Lemma fetchCategories_error ids :
  yields (fetchCategories r ids)
    (fun x => snd x = if (length ids =? 0)%nat then None
                      else qerr (db r SCategory fetchCategories_query
                                   [pqIntArray ids])).
Proof. unfold yields, fetchCategories. by destruct (Nat.eqb (length ids) 0). Qed.

Lemma fetchRelatedPosts_error ids :
  yields (fetchRelatedPosts r ids)
    (fun x => snd x = if (length ids =? 0)%nat then None
                      else qerr (db r SRelated fetchRelatedPosts_query
                                   [pqIntArray ids])).
Proof.
  unfold yields, fetchRelatedPosts. by destruct (Nat.eqb (length ids) 0).
Qed.

Lemma fetchPostsByIDs_error ids :
  yields (fetchPostsByIDs r ids)
    (fun x => snd x = if (length ids =? 0)%nat then None
                      else qerr (db r SPostByID fetchPostsByIDs_query
                                   [pqIntArray ids])).
Proof. unfold yields, fetchPostsByIDs. by destruct (Nat.eqb (length ids) 0). Qed.

Lemma fetchImages_error ids :
  yields (fetchImages r ids)
    (fun x => snd x = if (length ids =? 0)%nat then None
                      else qerr (db r SImage fetchImages_query
                                   [pqIntArray ids])).
Proof. unfold yields, fetchImages. by destruct (Nat.eqb (length ids) 0). Qed.

Lemma length_nonempty {A} (l : list A) : l <> [] -> (length l =? 0)%nat = false.
Proof. by destruct l. Qed.

Lemma enrichPosts_no_abort posts :
  statementSucceeds (db r) SSection fetchSections_query ->
  statementSucceeds (db r) SCategory fetchCategories_query ->
  statementSucceeds (db r) SRelated fetchRelatedPosts_query ->
  statementSucceeds (db r) SPostByID fetchPostsByIDs_query ->
  statementSucceeds (db r) SImage fetchImages_query ->
  yields (enrichPosts r posts) (fun x => snd x = None).
Proof.
  intros Hs Hc Hr Hp Hi. unfold enrichPosts.
  destruct (Nat.eqb (length posts) 0); [done|].
  ok_fetch fetchSections_error Hs.
  ok_fetch fetchCategories_error Hc.
  do 8 any_fetch.
  ok_fetch fetchRelatedPosts_error Hr.
  eapply (yields_bind _ (fun x => snd x = None)).
  { destruct (Nat.ltb 0 _); [|done].
    ok_fetch fetchPostsByIDs_error Hp. done. }
  intros [[relatedSinglePosts imageIDs] err] Herr. cbn [snd] in Herr.
  subst err. cbn beta iota.
  match goal with
  | |- context [foldl ?f ?a posts] => destruct (foldl f a posts) as [[? ?] ?]
  end.
  do 2 any_fetch.
  ok_fetch fetchImages_error Hi. done.
Qed.

Lemma collectIDs_posts posts :
  collectIDs (Post_ID <$> posts) <> [] -> (length posts =? 0)%nat = false.
Proof. by destruct posts. Qed.

Lemma appendMeta_nonempty ids m key : ids <> [] -> appendMeta ids m key <> [].
Proof.
  unfold appendMeta. destruct (0 <? getMetaInt m key); [|done].
  by destruct ids.
Qed.

Lemma appendMeta_positive ids m key :
  0 < getMetaInt m key -> appendMeta ids m key <> [].
Proof.
  unfold appendMeta. intros H. destruct (Z.ltb_spec 0 (getMetaInt m key)); [|lia].
  by destruct ids.
Qed.

Lemma foldl_appendMeta_nonempty key posts acc :
  acc <> [] \/ (exists p, p ∈ posts /\ 0 < getMetaInt (Post_Metadata p) key) ->
  foldl (fun acc p => appendMeta acc (Post_Metadata p) key) acc posts <> [].
Proof.
  revert acc. induction posts as [|p posts IH]; intros acc H; cbn [foldl].
  - destruct H as [H|(p & Hp & _)]; [done|]. by apply elem_of_nil in Hp.
  - apply IH. destruct H as [H|(p' & Hp & Hpos)].
    + left. by apply appendMeta_nonempty.
    + apply elem_of_cons in Hp as [->|Hp]; [|by eauto].
      left. by apply appendMeta_positive.
Qed.

(** The second loop over the batch collects every hero and og image. *)
Lemma collected_images posts videoIDs topicIDs imageIDs :
  imageIDs <> [] \/ hasImage posts ->
  snd (foldl (fun (st : list Z * list Z * list Z) p =>
                let '(videoIDs, topicIDs, imageIDs) := st in
                let meta := Post_Metadata p in
                (appendMeta videoIDs meta "heroVideoID",
                 appendMeta topicIDs meta "topicsID",
                 appendMeta (appendMeta imageIDs meta "heroImageID")
                            meta "ogImageID"))
             (videoIDs, topicIDs, imageIDs) posts) <> [].
Proof.
  revert videoIDs topicIDs imageIDs.
  induction posts as [|p posts IH]; intros videoIDs topicIDs imageIDs H;
    cbn [foldl].
  - destruct H as [H|(p & Hp & _)]; [done|]. by apply elem_of_nil in Hp.
  - apply IH. destruct H as [H|(p' & Hp & Hpos)].
    + left. by do 2 apply appendMeta_nonempty.
    + apply elem_of_cons in Hp as [->|Hp]; [|right; by exists p'].
      left. destruct Hpos as [Hpos|Hpos].
      * by apply appendMeta_nonempty, appendMeta_positive.
      * by apply appendMeta_positive.
Qed.

Lemma enrichPosts_sections_abort posts e :
  statementFails (db r) SSection fetchSections_query e ->
  collectIDs (Post_ID <$> posts) <> [] ->
  yields (enrichPosts r posts) (fun x => x = (posts, Some e)).
Proof.
  intros Hs Hids. unfold enrichPosts. rewrite (collectIDs_posts _ Hids).
  failed_fetch fetchSections_error Hs (length_nonempty _ Hids). done.
Qed.

Lemma enrichPosts_categories_abort posts e :
  statementSucceeds (db r) SSection fetchSections_query ->
  statementFails (db r) SCategory fetchCategories_query e ->
  collectIDs (Post_ID <$> posts) <> [] ->
  yields (enrichPosts r posts) (fun x => x = (posts, Some e)).
Proof.
  intros Hs Hc Hids. unfold enrichPosts. rewrite (collectIDs_posts _ Hids).
  ok_fetch fetchSections_error Hs.
  failed_fetch fetchCategories_error Hc (length_nonempty _ Hids). done.
Qed.

Lemma enrichPosts_relateds_abort posts e :
  statementSucceeds (db r) SSection fetchSections_query ->
  statementSucceeds (db r) SCategory fetchCategories_query ->
  statementFails (db r) SRelated fetchRelatedPosts_query e ->
  collectIDs (Post_ID <$> posts) <> [] ->
  yields (enrichPosts r posts) (fun x => x = (posts, Some e)).
Proof.
  intros Hs Hc Hr Hids. unfold enrichPosts. rewrite (collectIDs_posts _ Hids).
  ok_fetch fetchSections_error Hs.
  ok_fetch fetchCategories_error Hc.
  do 8 any_fetch.
  failed_fetch fetchRelatedPosts_error Hr (length_nonempty _ Hids). done.
Qed.

Lemma hasRelatedSingle_posts posts :
  hasRelatedSingle posts -> (length posts =? 0)%nat = false.
Proof.
  intros (p & Hp & _). destruct posts; [by apply elem_of_nil in Hp|done].
Qed.

Lemma hasImage_posts posts :
  hasImage posts -> (length posts =? 0)%nat = false.
Proof.
  intros (p & Hp & _). destruct posts; [by apply elem_of_nil in Hp|done].
Qed.

Lemma enrichPosts_singles_abort posts e :
  statementSucceeds (db r) SSection fetchSections_query ->
  statementSucceeds (db r) SCategory fetchCategories_query ->
  statementSucceeds (db r) SRelated fetchRelatedPosts_query ->
  statementFails (db r) SPostByID fetchPostsByIDs_query e ->
  hasRelatedSingle posts ->
  yields (enrichPosts r posts) (fun x => x = (posts, Some e)).
Proof.
  intros Hs Hc Hr Hp Hsingle. unfold enrichPosts.
  rewrite (hasRelatedSingle_posts _ Hsingle).
  ok_fetch fetchSections_error Hs.
  ok_fetch fetchCategories_error Hc.
  do 8 any_fetch.
  ok_fetch fetchRelatedPosts_error Hr.
  match goal with
  | |- context [Nat.ltb 0 (length ?ids)] =>
      assert (ids <> []) as Hids
  end.
  { destruct Hsingle as (p & Hin & [Hpos|Hpos]); intros Happ;
      apply app_eq_nil in Happ as [H1 H2]; revert H1 H2.
    - intros H1 _. revert H1. apply foldl_appendMeta_nonempty. eauto.
    - intros _. apply foldl_appendMeta_nonempty. eauto. }
  eapply (yields_bind _ (fun x => snd x = Some e)).
  { match goal with
    | |- context [Nat.ltb 0 (length ?ids)] =>
        replace (Nat.ltb 0 (length ids)) with true by (by destruct ids)
    end.
    failed_fetch fetchPostsByIDs_error Hp (length_nonempty _ Hids). done. }
  intros [[relatedSinglePosts imageIDs] err] Herr. cbn [snd] in Herr.
  subst err. done.
Qed.

Lemma enrichPosts_images_abort posts e :
  statementSucceeds (db r) SSection fetchSections_query ->
  statementSucceeds (db r) SCategory fetchCategories_query ->
  statementSucceeds (db r) SRelated fetchRelatedPosts_query ->
  statementSucceeds (db r) SPostByID fetchPostsByIDs_query ->
  statementFails (db r) SImage fetchImages_query e ->
  hasImage posts ->
  yields (enrichPosts r posts) (fun x => x = (posts, Some e)).
Proof.
  intros Hs Hc Hr Hp Hi Himage. unfold enrichPosts.
  rewrite (hasImage_posts _ Himage).
  ok_fetch fetchSections_error Hs.
  ok_fetch fetchCategories_error Hc.
  do 8 any_fetch.
  ok_fetch fetchRelatedPosts_error Hr.
  eapply (yields_bind _ (fun x => snd x = None)).
  { destruct (Nat.ltb 0 _); [|done].
    ok_fetch fetchPostsByIDs_error Hp. done. }
  intros [[relatedSinglePosts imageIDs] err] Herr. cbn [snd] in Herr.
  subst err. cbn beta iota.
  match goal with
  | |- context [foldl ?f (?v, ?t, imageIDs) posts] =>
      pose proof (collected_images posts v t imageIDs (or_intror Himage)) as Hne;
      destruct (foldl f (v, t, imageIDs) posts) as [[videoIDs topicIDs] images]
  end.
  cbn [snd] in Hne.
  do 2 any_fetch.
  match goal with
  | |- context [fetchImages r ?ids] =>
      assert (ids <> []) as Hids
        by (intros Happ; by apply app_eq_nil in Happ as [? _])
  end.
  failed_fetch fetchImages_error Hi (length_nonempty _ Hids). done.
Qed.

(** The enclosing operations return the error of the loader and no value. *)
Lemma QueryPosts_enrich_error where_ orders take skip e :
  cacheMisses r ->
  let b := QueryPosts_statement (ensurePostPublished where_) orders take skip in
  let rows := db r SPost (sb b) (args b) in
  qerr rows = None ->
  snd (result (enrichPosts r (postOfRow <$> qrows rows))) = Some e ->
  result (QueryPosts r where_ orders take skip) = ([], Some e).
Proof.
  intros Hmiss b rows Hok Herr. unfold QueryPosts. cbv zeta.
  rewrite result_bind, (cacheRead_miss _ CPosts) by done.
  rewrite result_bind. cbn [QueryContext result fst].
  fold b. fold rows. rewrite Hok.
  destruct (Nat.eqb (length (postOfRow <$> qrows rows)) 0) eqn:Hlen.
  { destruct (qrows rows); [|done]. cbn in Herr. done. }
  rewrite result_bind.
  set (E := enrichPosts r _) in *. clearbody E.
  destruct E as [[posts err] l]. cbn [result fst snd] in *. by subst err.
Qed.

Lemma QueryPostByUnique_enrich_error w text args x rows e :
  cacheMisses r ->
  QueryPostByUnique_statement w = Some (text, args) ->
  qerr (db r SPost text args) = None ->
  qrows (db r SPost text args) = x :: rows ->
  snd (result (enrichPosts r [postOfRow x])) = Some e ->
  result (QueryPostByUnique r (Some w)) = (None, Some e).
Proof.
  intros Hmiss Hst Hok Hrows Herr. unfold QueryPostByUnique.
  rewrite result_bind, (cacheRead_miss _ CPost) by done.
  rewrite Hst, result_bind. unfold QueryRowContext. cbn [result fst].
  rewrite Hok, Hrows, result_bind.
  set (E := enrichPosts r _) in *. clearbody E.
  destruct E as [[posts err] l]. cbn [result fst snd] in *. by subst err.
Qed.

(** [QueryExternals] returns no error but that of its own statement. *)
Lemma QueryExternals_error where_ orders take skip :
  cacheMisses r ->
  let b := QueryExternals_statement (ensureExternalPublished where_) orders
             take skip in
  snd (result (QueryExternals r where_ orders take skip))
  = qerr (db r SExternal (sb b) (args b)).
Proof.
  intros Hmiss b. unfold QueryExternals. cbv zeta.
  rewrite result_bind, (cacheRead_miss _ CExternals) by done.
  rewrite result_bind. cbn [QueryContext result fst]. subst b.
  destruct (qerr _); [reflexivity|].
  rewrite result_bind.
  set (P := fetchPartners r _). clearbody P.
  destruct P as [[partners perr] lp]; cbn [result fst].
  rewrite result_bind.
  set (T := fetchExternalTags r _ _). clearbody T.
  destruct T as [[tagsMap terr] lt]; cbn [result fst].
  by rewrite result_bind.
Qed.

End Hydration.

(** C2 as the specification words it fails: the statement that loads the
    writers of a batch fails, and the listing returns its posts with no
    writers and no error; the statement that loads the partners of a batch of
    externals fails, and the listing returns its externals with no partner
    and no error. *)
Lemma contributor_failure_is_ignored :
  let e := ErrOther "connection reset" in
  let r := mkRepo (postsFailingDB [samplePostRow 5 "a"]
                     (String.eqb (fetchContacts_query "_Post_writers")) e)
                  "https://s" None in
  let r' := mkRepo (externalsDB
                      [mkExternalRow 9 "x" "" "published" None "" "" "" "" ""
                                     (Some 3) None]
                      (String.eqb fetchPartners_query) e)
                   "https://s" None in
  (queries (log (QueryPosts r None [] 0 0)) !! 3%nat
   = Some (fetchContacts_query "_Post_writers", [pqIntArray [5]]) /\
   qerr (db r SContact (fetchContacts_query "_Post_writers") [pqIntArray [5]])
   = Some e /\
   snd (result (QueryPosts r None [] 0 0)) = None /\
   (fun p => (Post_ID p, Post_Writers p)) <$> fst (result (QueryPosts r None [] 0 0))
   = [("5", [])]) /\
  (queries (log (QueryExternals r' None [] 0 0)) !! 1%nat
   = Some (fetchPartners_query, [pqIntArray [3]]) /\
   qerr (db r' SPartner fetchPartners_query [pqIntArray [3]]) = Some e /\
   snd (result (QueryExternals r' None [] 0 0)) = None /\
   (fun x => (External_ID x, External_Partner x))
     <$> fst (result (QueryExternals r' None [] 0 0))
   = [("9", None)]).
Proof. cbv zeta. split_and!; vm_compute; reflexivity. Qed.

(** C2, amended.  During the hydration of a batch of posts, an error of the
    statement that loads the sections, the categories, the related posts, the
    singular related posts or the images aborts the hydration: when the
    statements before it in that order succeed and the batch gives it
    something to ask for, [enrichPosts] returns that error and leaves the
    batch as it was, and [QueryPosts] and [QueryPostByUnique] return that
    error and no value.  When these five statements succeed, [enrichPosts]
    returns no error, whatever the statements of the six contributor roles,
    of the two tag relations, of the videos and of the topics report; and
    [QueryExternals] returns no error but that of its own statement, whatever
    the statements of the partners and of the tags report. *)
Theorem batch_hydration_errors (r : Repo) (posts : list Post) (e : error) :
  let succeeds := statementSucceeds (db r) in
  let fails S query := statementFails (db r) S query e in
  let ids := collectIDs (Post_ID <$> posts) in
  (fails SSection fetchSections_query -> ids <> [] ->
   result (enrichPosts r posts) = (posts, Some e)) /\
  (succeeds SSection fetchSections_query ->
   fails SCategory fetchCategories_query -> ids <> [] ->
   result (enrichPosts r posts) = (posts, Some e)) /\
  (succeeds SSection fetchSections_query ->
   succeeds SCategory fetchCategories_query ->
   fails SRelated fetchRelatedPosts_query -> ids <> [] ->
   result (enrichPosts r posts) = (posts, Some e)) /\
  (succeeds SSection fetchSections_query ->
   succeeds SCategory fetchCategories_query ->
   succeeds SRelated fetchRelatedPosts_query ->
   fails SPostByID fetchPostsByIDs_query -> hasRelatedSingle posts ->
   result (enrichPosts r posts) = (posts, Some e)) /\
  (succeeds SSection fetchSections_query ->
   succeeds SCategory fetchCategories_query ->
   succeeds SRelated fetchRelatedPosts_query ->
   succeeds SPostByID fetchPostsByIDs_query ->
   fails SImage fetchImages_query -> hasImage posts ->
   result (enrichPosts r posts) = (posts, Some e)) /\
  (succeeds SSection fetchSections_query ->
   succeeds SCategory fetchCategories_query ->
   succeeds SRelated fetchRelatedPosts_query ->
   succeeds SPostByID fetchPostsByIDs_query ->
   succeeds SImage fetchImages_query ->
   snd (result (enrichPosts r posts)) = None) /\
  (cacheMisses r ->
   (forall where_ orders take skip,
       let b := QueryPosts_statement (ensurePostPublished where_) orders
                  take skip in
       let rows := db r SPost (sb b) (args b) in
       qerr rows = None ->
       snd (result (enrichPosts r (postOfRow <$> qrows rows))) = Some e ->
       result (QueryPosts r where_ orders take skip) = ([], Some e)) /\
   (forall w text args x rows,
       QueryPostByUnique_statement w = Some (text, args) ->
       qerr (db r SPost text args) = None ->
       qrows (db r SPost text args) = x :: rows ->
       snd (result (enrichPosts r [postOfRow x])) = Some e ->
       result (QueryPostByUnique r (Some w)) = (None, Some e)) /\
   (forall where_ orders take skip,
       let b := QueryExternals_statement (ensureExternalPublished where_)
                  orders take skip in
       snd (result (QueryExternals r where_ orders take skip))
       = qerr (db r SExternal (sb b) (args b)))).
Proof.
  intros succeeds fails ids. subst succeeds fails ids. split_and!.
  - intros. by apply enrichPosts_sections_abort.
  - intros. by apply enrichPosts_categories_abort.
  - intros. by apply enrichPosts_relateds_abort.
  - intros. by apply enrichPosts_singles_abort.
  - intros. by apply enrichPosts_images_abort.
  - intros. by apply enrichPosts_no_abort.
  - intros Hmiss. split_and!.
    + intros. by apply QueryPosts_enrich_error.
    + intros. by eapply QueryPostByUnique_enrich_error.
    + intros. by apply QueryExternals_error.
Qed.

(** The statement that loads the sections fails: the listing of the one
    post the table holds returns that error and no post. *)
Lemma batch_hydration_errors_witness :
  let e := ErrOther "connection reset" in
  let r := mkRepo (postsFailingDB [samplePostRow 5 "a"]
                     (String.eqb fetchSections_query) e)
                  "https://s" None in
  let posts := [postOfRow (samplePostRow 5 "a")] in
  statementFails (db r) SSection fetchSections_query e /\
  collectIDs (Post_ID <$> posts) <> [] /\
  result (enrichPosts r posts) = (posts, Some e) /\
  result (QueryPosts r None [] 0 0) = ([], Some e).
Proof.
  intros e r posts.
  assert (statementFails (db r) SSection fetchSections_query e) as Hf
    by (intros args; reflexivity).
  assert (collectIDs (Post_ID <$> posts) <> []) as Hids
    by (vm_compute; discriminate).
  destruct (batch_hydration_errors r posts e) as (Hs & _ & _ & _ & _ & _ & Hq).
  split_and!; [exact Hf|exact Hids|exact (Hs Hf Hids)|].
  destruct (Hq I) as (Hposts & _).
  apply (Hposts None [] 0 0); [reflexivity|].
  change (snd (result (enrichPosts r posts)) = Some e).
  by rewrite (Hs Hf Hids).
Defined.

(** ** C4: the related articles of either endpoint *)

Section Relateds.

Lemma collectIDs_acc (strs : list string) (acc : list Z) :
  foldl (fun acc s => let id := fst (Atoi s) in
                      if id =? 0 then acc else acc ++ [id]) acc strs
  = acc ++ collectIDs strs.
Proof.
  unfold collectIDs. revert acc.
  induction strs as [|s strs IH]; intros acc; cbn [foldl].
  - by rewrite app_nil_r.
  - rewrite IH. rewrite (IH (if _ =? 0 then [] else _)).
    destruct (fst (Atoi s) =? 0); [done|]. by rewrite app_assoc.
Qed.

(** Every identifier that parses to a non-zero [int] is asked for. *)
Lemma collectIDs_elem (strs : list string) (s : string) :
  s ∈ strs -> fst (Atoi s) <> 0 -> fst (Atoi s) ∈ collectIDs strs.
Proof.
  induction strs as [|s' strs IH]; intros Hin Hnz.
  - by apply elem_of_nil in Hin.
  - unfold collectIDs. cbn [foldl]. rewrite collectIDs_acc.
    apply elem_of_app. apply elem_of_cons in Hin as [<-|Hin].
    + left. destruct (Z.eqb_spec (fst (Atoi s)) 0); [done|].
      by apply list_elem_of_singleton.
    + right. by apply IH.
Qed.

(** The edges the statement of [fetchRelatedPosts] selects, both ways. *)
Lemma relatedRows_forward posts edges ids a b pb :
  (a, b) ∈ edges -> a ∈ ids -> pb ∈ posts -> pb_dbID pb = b ->
  mkRelatedRow a b (pb_Slug pb) (pb_Title pb) (pb_hero pb)
  ∈ relatedRows posts edges ids.
Proof.
  intros He Ha Hp Hb. unfold relatedRows. apply elem_of_remove_dups.
  apply elem_of_app. left. apply list_elem_of_In, in_flat_map.
  exists (a, b). split; [by apply list_elem_of_In|]. cbn [fst snd].
  rewrite bool_decide_eq_true_2 by done.
  apply list_elem_of_In, list_elem_of_fmap. exists pb.
  split; [by rewrite Hb|]. by apply list_elem_of_filter.
Qed.

Lemma relatedRows_backward posts edges ids a b pa :
  (a, b) ∈ edges -> b ∈ ids -> pa ∈ posts -> pb_dbID pa = a ->
  mkRelatedRow b a (pb_Slug pa) (pb_Title pa) (pb_hero pa)
  ∈ relatedRows posts edges ids.
Proof.
  intros He Hb Hp Ha. unfold relatedRows. apply elem_of_remove_dups.
  apply elem_of_app. right. apply list_elem_of_In, in_flat_map.
  exists (a, b). split; [by apply list_elem_of_In|]. cbn [fst snd].
  rewrite bool_decide_eq_true_2 by done.
  apply list_elem_of_In, list_elem_of_fmap. exists pa.
  split; [by rewrite Ha|]. by apply list_elem_of_filter.
Qed.

Context (r : Repo).

(** What [fetchRelatedPosts] files under a post: the posts of the rows
    keyed by it. *)
Lemma fetchRelatedPosts_at ids k (x : RelatedRow) :
  ids <> [] ->
  x ∈ qrows (db r SRelated fetchRelatedPosts_query [pqIntArray ids]) ->
  rr_pid x = k ->
  narrowPost (rr_dbID x) (rr_Slug x) (rr_Title x) (rr_heroID x)
  ∈ at_ (fst (fst (result (fetchRelatedPosts r ids)))) k.
Proof.
  intros Hids Hx Hk. unfold fetchRelatedPosts.
  rewrite (length_nonempty _ Hids). rewrite result_bind.
  cbn [QueryContext result fst mret M_ret].
  rewrite (foldl_fst
             (fun m x => appendAt m (rr_pid x)
                           (narrowPost (rr_dbID x) (rr_Slug x) (rr_Title x)
                                       (rr_heroID x)))).
  rewrite (foldl_appendAt rr_pid
             (fun x => narrowPost (rr_dbID x) (rr_Slug x) (rr_Title x)
                                  (rr_heroID x))).
  apply elem_of_app. right. apply list_elem_of_fmap. exists x.
  split; [done|]. by apply list_elem_of_filter.
Qed.

(** After a hydration that met no error, each post of the batch carries the
    related posts filed under its identifier. *)
Lemma enrichPosts_relateds posts :
  neverFails (db r) ->
  yields (enrichPosts r posts)
    (fun x =>
       forall i p, posts !! i = Some p ->
         exists p', fst x !! i = Some p' /\
           Post_ID p' = Post_ID p /\
           Post_Relateds p'
           = at_ (fst (fst (result (fetchRelatedPosts r
                                      (collectIDs (Post_ID <$> posts))))))
                 (fst (Atoi (Post_ID p)))).
Proof.
  intros Hup. unfold enrichPosts.
  destruct (Nat.eqb (length posts) 0) eqn:Hlen.
  { destruct posts; [|done]. intros i p Hp. by rewrite lookup_nil in Hp. }
  ok_fetch fetchSections_error (Hup SSection fetchSections_query).
  ok_fetch fetchCategories_error (Hup SCategory fetchCategories_query).
  do 8 any_fetch.
  eapply (yields_bind _ (fun x => x = result (fetchRelatedPosts r
                                    (collectIDs (Post_ID <$> posts)))));
    [reflexivity|].
  intros [[relatedsMap relatedImageIDs] err] Hrel.
  pose proof (fetchRelatedPosts_error r (collectIDs (Post_ID <$> posts))) as He.
  unfold yields in He. rewrite <- Hrel in He. cbn [snd] in He.
  rewrite Hup in He.
  assert (err = None) as ->
    by (match type of He with
        | _ = (if ?c then _ else _) => by destruct c
        end).
  clear He.
  cbn beta iota.
  eapply (yields_bind _ (fun x => snd x = None)).
  { destruct (Nat.ltb 0 _); [|done].
    ok_fetch fetchPostsByIDs_error (Hup SPostByID fetchPostsByIDs_query). done. }
  intros [[relatedSinglePosts imageIDs] err] Herr. cbn [snd] in Herr.
  subst err. cbn beta iota.
  match goal with
  | |- context [foldl ?f ?a posts] => destruct (foldl f a posts) as [[? ?] ?]
  end.
  do 2 any_fetch.
  ok_fetch fetchImages_error (Hup SImage fetchImages_query).
  unfold yields. cbn [result fst mret M_ret]. intros i p Hp.
  rewrite list_lookup_fmap, Hp. cbn [fmap option_fmap option_map].
  eexists. split; [reflexivity|]. cbn [Post_ID Post_Relateds attachPost].
  by rewrite <- Hrel.
Qed.

End Relateds.

(** C4.  Let the join table of the related articles hold an edge between
    the articles [a] and [b], in either column order, and let the database
    answer the statement of [fetchRelatedPosts] as the statement reads and
    report no error.  Then hydrating any batch gives every post of the batch
    whose identifier is [a] a related list that holds [b], and every post
    whose identifier is [b] a related list that holds [a]. *)
Theorem related_articles_symmetric (r : Repo) (table : list PostByIDRow)
  (edges : list (Z * Z)) (pa pb : PostByIDRow) (batch : list Post) :
  neverFails (db r) ->
  answersRelated (db r) table edges ->
  (pb_dbID pa, pb_dbID pb) ∈ edges \/ (pb_dbID pb, pb_dbID pa) ∈ edges ->
  pa ∈ table -> pb ∈ table ->
  pb_dbID pa <> 0 -> pb_dbID pb <> 0 ->
  in_int (pb_dbID pa) -> in_int (pb_dbID pb) ->
  let hydrated := fst (result (enrichPosts r batch)) in
  let related (x : PostByIDRow) :=
    narrowPost (pb_dbID x) (pb_Slug x) (pb_Title x) (pb_hero x) in
  (forall i p, batch !! i = Some p -> Post_ID p = Itoa (pb_dbID pa) ->
     exists p', hydrated !! i = Some p' /\
                Post_ID p' = Itoa (pb_dbID pa) /\
                related pb ∈ Post_Relateds p') /\
  (forall i p, batch !! i = Some p -> Post_ID p = Itoa (pb_dbID pb) ->
     exists p', hydrated !! i = Some p' /\
                Post_ID p' = Itoa (pb_dbID pb) /\
                related pa ∈ Post_Relateds p').
Proof.
  intros Hup Hdb Hedge Hpa Hpb Hna Hnb Hia Hib hydrated related.
  pose proof (enrichPosts_relateds r batch Hup) as Hrel. unfold yields in Hrel.
  assert (forall (x y : PostByIDRow) i p,
             x ∈ table -> y ∈ table ->
             pb_dbID x <> 0 -> in_int (pb_dbID x) ->
             (pb_dbID x, pb_dbID y) ∈ edges \/ (pb_dbID y, pb_dbID x) ∈ edges ->
             batch !! i = Some p -> Post_ID p = Itoa (pb_dbID x) ->
             exists p', hydrated !! i = Some p' /\
                        Post_ID p' = Itoa (pb_dbID x) /\
                        related y ∈ Post_Relateds p') as Hside.
  { intros x y i p Hx Hy Hnx Hix He Hp Hid.
    destruct (Hrel i p Hp) as (p' & Hp' & Hid' & Hrels).
    exists p'. split; [exact Hp'|]. split; [congruence|].
    rewrite Hrels, Hid, (Atoi_Itoa _ Hix). cbn [fst].
    assert (pb_dbID x ∈ collectIDs (Post_ID <$> batch)) as Hin.
    { replace (pb_dbID x) with (fst (Atoi (Post_ID p)))
        by (by rewrite Hid, (Atoi_Itoa _ Hix)).
      apply collectIDs_elem.
      - apply list_elem_of_fmap. exists p. split; [done|].
        by eapply list_elem_of_lookup_2.
      - by rewrite Hid, (Atoi_Itoa _ Hix). }
    assert (collectIDs (Post_ID <$> batch) <> []) as Hids
      by (intros E; rewrite E in Hin; by apply elem_of_nil in Hin).
    apply (fetchRelatedPosts_at r _ _
             (mkRelatedRow (pb_dbID x) (pb_dbID y) (pb_Slug y) (pb_Title y)
                           (pb_hero y)) Hids); [|done].
    apply Hdb. destruct He as [He|He].
    - by eapply relatedRows_forward.
    - by eapply relatedRows_backward. }
  split.
  - intros i p Hp Hid. by apply (Hside pa pb i p).
  - intros i p Hp Hid. apply (Hside pb pa i p); try done.
    by destruct Hedge; [right|left].
Qed.

(** Articles 1 and 2 share the edge (1, 2): hydrating the batch of both
    gives article 1 the related article 2 and article 2 the related
    article 1. *)
Lemma related_articles_symmetric_witness :
  let a := mkPostByIDRow 1 "a" "Article A" None in
  let b := mkPostByIDRow 2 "b" "Article B" (Some 7) in
  let r := mkRepo (relatedDB [a; b] [(1, 2)]) "https://s" None in
  let batch := [postOfRow (samplePostRow 1 "a"); postOfRow (samplePostRow 2 "b")] in
  let hydrated := fst (result (enrichPosts r batch)) in
  (exists p', hydrated !! 0%nat = Some p' /\ Post_ID p' = "1" /\
              narrowPost 2 "b" "Article B" (Some 7) ∈ Post_Relateds p') /\
  (exists p', hydrated !! 1%nat = Some p' /\ Post_ID p' = "2" /\
              narrowPost 1 "a" "Article A" None ∈ Post_Relateds p') /\
  (fun p => (Post_ID p, Post_Slug <$> Post_Relateds p)) <$> hydrated
  = [("1", ["b"]); ("2", ["a"])].
Proof.
  intros a b r batch hydrated.
  assert (neverFails (db r)) as Hup.
  { intros S query args. destruct S; try reflexivity.
    cbn. destruct args as [|[| | |ids] [|]]; try reflexivity.
    by destruct (String.eqb query fetchRelatedPosts_query). }
  assert (answersRelated (db r) [a; b] [(1, 2)]) as Hdb
    by (intros ids x; reflexivity).
  destruct (related_articles_symmetric r [a; b] [(1, 2)] a b batch Hup Hdb)
    as [Ha Hb].
  - left. apply list_elem_of_singleton. reflexivity.
  - apply elem_of_cons. by left.
  - apply elem_of_cons. right. apply elem_of_cons. by left.
  - discriminate.
  - discriminate.
  - unfold in_int. vm_compute. split; discriminate.
  - unfold in_int. vm_compute. split; discriminate.
  - split; [exact (Ha 0%nat _ eq_refl eq_refl)|].
    split; [exact (Hb 1%nat _ eq_refl eq_refl)|].
    vm_compute. reflexivity.
Defined.
